(** * go-zkteco: the protocol engine, embedded in Rocq

    A shallow embedding of the framing codec ([parsePacket], [createHeader],
    [calculateChecksum], [wrapTCP], [extractTCPPacket], [makeCommKey],
    [encodeTime], [decodeTime]), of the session engine ([command],
    [sendData], [recvData], [recvTCP], [recvUDP]), of the bulk transfer
    ([commandData], [recvLargeData], [readNextTCPPayload]) and of the
    event loop ([GetRealTimeEvents]) of the Go client.

    Conventions.  A Go [[]byte] is a [list byte]; the unsigned integer
    types are [Z] with the wrap-around of each operation written out
    ([u16], [u32]); Go's [int] and [int64] are [Z] (64 bits wide, never
    overflowed by the code below).  A method on [*ZKTeco] is a function
    from the client state to an outcome and the mutated state. *)

From Stdlib Require Import Strings.String.
From Stdlib Require Import ZArith List Bool Lia.
From Stdlib Require Import Init.Byte.
From Stdlib Require Strings.Byte.
Import ListNotations.
Local Open Scope Z_scope.

(* ================================================================== *)
(** ** Bytes and fixed-width integers *)

(** [int(b)], [uint16(b)], ... of a byte [b]. *)
Definition byte_val (b : byte) : Z := Z.of_N (Byte.to_N b).

(** [byte(z)]: the low eight bits. *)
Definition mk_byte (z : Z) : byte :=
  match Byte.of_N (Z.to_N (z mod 256)) with
  | Some b => b
  | None => x00
  end.

(** [uint16(z)] and [uint32(z)]. *)
Definition u16 (z : Z) : Z := z mod 65536.
Definition u32 (z : Z) : Z := z mod 4294967296.

Definition is_u16 (z : Z) : Prop := 0 <= z < 65536.

(** [len(s)] as an [int]. *)
Definition len (s : list byte) : Z := Z.of_nat (length s).

(** [s[i:j]] and [s[i:]] on indices that are in range. *)
Definition slice (i j : nat) (s : list byte) : list byte :=
  firstn (j - i) (skipn i s).
Definition slice_from (i : nat) (s : list byte) : list byte := skipn i s.

(** [copy(dst[off:], src)] when [src] fits, and the two-byte and four-byte
    stores of [encoding/binary] are writes into an existing buffer. *)
Definition store (off : nat) (src dst : list byte) : list byte :=
  firstn off dst ++ src ++ skipn (off + length src) dst.

(** [binary.LittleEndian.Uint16(s)] on a slice of at least two bytes. *)
Definition Uint16 (s : list byte) : Z :=
  match s with
  | b0 :: b1 :: _ => byte_val b0 + 256 * byte_val b1
  | _ => 0
  end.

(** [binary.LittleEndian.Uint32(s)] on a slice of at least four bytes. *)
Definition Uint32 (s : list byte) : Z :=
  match s with
  | b0 :: b1 :: b2 :: b3 :: _ =>
      byte_val b0 + 256 * byte_val b1 + 65536 * byte_val b2
      + 16777216 * byte_val b3
  | _ => 0
  end.

(** The bytes [binary.LittleEndian.PutUint16] and [PutUint32] write. *)
Definition PutUint16 (v : Z) : list byte :=
  [mk_byte v; mk_byte (Z.shiftr v 8)].
Definition PutUint32 (v : Z) : list byte :=
  [mk_byte v; mk_byte (Z.shiftr v 8); mk_byte (Z.shiftr v 16);
   mk_byte (Z.shiftr v 24)].

(* ================================================================== *)
(** ** Constants *)

Definition ushrtMax : Z := 65535.
Definition tcpMagic : list byte := [x50; x50; x82; x7d].

Definition CMD_CONNECT : Z := 1000.
Definition CMD_EXIT : Z := 1001.
Definition CMD_ACK_OK : Z := 2000.
Definition CMD_ACK_ERROR : Z := 2001.
Definition CMD_ACK_DATA : Z := 2002.
Definition CMD_ACK_UNAUTH : Z := 2005.
Definition CMD_ACK_AUTH : Z := 1102.
Definition CMD_PREPARE_DATA : Z := 1500.
Definition CMD_DATA : Z := 1501.
Definition CMD_FREE_DATA : Z := 1502.
Definition CMD_REG_EVENT : Z := 500.

(* ================================================================== *)
(** ** Errors and outcomes *)

(** What [conn.Read] and [conn.Write] can report. *)
Inductive net_error : Type :=
| NetTimeout        (* the deadline elapsed; [Timeout()] answers true *)
| NetClosed.        (* any other failure of the socket *)

Definition isTimeout (e : net_error) : bool :=
  match e with NetTimeout => true | NetClosed => false end.

Inductive error : Type :=
| ErrNotConnected                       (* "not connected" *)
| ErrNet (e : net_error)                (* returned by the socket as is *)
| ErrPacketTooShort (n : Z)             (* "packet too short: %d bytes" *)
| ErrSessionMismatch (expected got : Z) (* "session mismatch: ..." *)
| ErrPrepareTooShort (n : Z)            (* "PREPARE_DATA response too short" *)
| ErrReceiveChunk (e : error)           (* "receive chunk: %w" *)
| ErrFinalAck (e : error)               (* "receive final ACK: %w" *)
| ErrMaxAttempts                        (* "exceeded max attempts" *)
| ErrUnexpectedResponse (cmd : Z)       (* "unexpected response command: %d" *)
| ErrRegisterEvents (e : error)         (* "register events: %w" *)
| ErrParseRegEvent (e : error)          (* "parse reg event response: %w" *)
| ErrRegisterResponse (cmd : Z)         (* "register events: error response %d" *)
| ErrReceiveEvent (e : error).          (* "receive event: %w" *)

(** A call returns a value, returns an error, or panics (a method called on
    the nil connection); [Diverged] is the model's answer when a loop has
    used up the iterations it was given, which the lemmas on fuel show
    is never the case for the functions below. *)
Inductive outcome (A : Type) : Type :=
| Ok (a : A)
| Err (e : error)
| Panic
| Diverged.
Arguments Ok {A} a.
Arguments Err {A} e.
Arguments Panic {A}.
Arguments Diverged {A}.

(* ================================================================== *)
(** ** Framing codec *)

Record packet : Type := mkPacket {
  Command : Z;
  Checksum : Z;
  SessionID : Z;
  ReplyID : Z;
  Data : list byte
}.

Definition parsePacket (data : list byte) : outcome packet :=
  if len data <? 8 then Err (ErrPacketTooShort (len data))
  else
    let p := {| Command := Uint16 (slice 0 2 data);
                Checksum := Uint16 (slice 2 4 data);
                SessionID := Uint16 (slice 4 6 data);
                ReplyID := Uint16 (slice 6 8 data);
                Data := [] |} in
    if len data >? 8
    then Ok {| Command := Command p; Checksum := Checksum p;
               SessionID := SessionID p; ReplyID := ReplyID p;
               Data := slice_from 8 data |}
    else Ok p.

(** The first loop of [calculateChecksum]: one 16-bit word per iteration,
    [i] advancing by two while [i < length-1]. *)
Fixpoint sumWords (data : list byte) (chksum : Z) : Z :=
  match data with
  | b0 :: b1 :: rest =>
      let val := Uint16 [b0; b1] in
      let chksum := chksum + val in
      let chksum := if chksum >? ushrtMax then chksum - ushrtMax else chksum in
      sumWords rest chksum
  | _ => chksum
  end.

(** [for chksum > ushrtMax { chksum -= ushrtMax }], at most [fuel] times. *)
Fixpoint foldAbove (fuel : nat) (chksum : Z) : Z :=
  match fuel with
  | O => chksum
  | S fuel' =>
      if chksum >? ushrtMax then foldAbove fuel' (chksum - ushrtMax)
      else chksum
  end.

(** [for chksum < 0 { chksum += ushrtMax }], at most [fuel] times. *)
Fixpoint liftBelow (fuel : nat) (chksum : Z) : Z :=
  match fuel with
  | O => chksum
  | S fuel' =>
      if chksum <? 0 then liftBelow fuel' (chksum + ushrtMax)
      else chksum
  end.

(** Each pass of the two loops moves [chksum] by 65535 towards its bound,
    so [|chksum|] passes are more than either loop can make. *)
Definition calculateChecksum (data : list byte) : Z :=
  let chksum := sumWords data 0 in
  let chksum :=
    if Nat.odd (length data)
    then chksum + byte_val (last data x00)
    else chksum in
  let chksum := foldAbove (Z.abs_nat chksum) chksum in
  let chksum := if chksum >? 0 then - chksum else chksum in
  let chksum := chksum - 1 in
  let chksum := liftBelow (Z.abs_nat chksum) chksum in
  u16 chksum.

Definition createHeader (command sessionID replyID : Z) (data : list byte)
  : list byte * Z :=
  let packetLen := (8 + length data)%nat in
  let buf := repeat x00 packetLen in
  let buf := store 0 (PutUint16 command) buf in
  let buf := store 2 (PutUint16 0) buf in
  let buf := store 4 (PutUint16 sessionID) buf in
  let buf := store 6 (PutUint16 replyID) buf in
  let buf := if (0 <? length data)%nat then store 8 data buf else buf in
  let checksum := calculateChecksum buf in
  let nextReplyID := u16 (replyID + 1) in
  let nextReplyID :=
    if nextReplyID >=? ushrtMax then u16 (nextReplyID - ushrtMax)
    else nextReplyID in
  let buf := store 2 (PutUint16 checksum) buf in
  let buf := store 6 (PutUint16 nextReplyID) buf in
  (buf, nextReplyID).

Definition wrapTCP (packet : list byte) : list byte :=
  let result := repeat x00 (8 + length packet) in
  let result := store 0 tcpMagic result in
  let result := store 4 (PutUint32 (u32 (len packet))) result in
  store 8 packet result.

Definition extractTCPPacket (buf : list byte)
  : list byte * list byte * bool :=
  if len buf <? 8 then ([], buf, false)
  else if negb (Byte.eqb (nth 0 buf x00) x50)
          || negb (Byte.eqb (nth 1 buf x00) x50)
          || negb (Byte.eqb (nth 2 buf x00) x82)
          || negb (Byte.eqb (nth 3 buf x00) x7d)
  then ([], buf, false)
  else
    let payloadLen := Uint32 (slice 4 8 buf) in
    let totalLen := 8 + payloadLen in
    if len buf <? totalLen then ([], buf, false)
    else
      let payload := slice 8 (Z.to_nat totalLen) buf in
      let remainder :=
        if len buf >? totalLen then slice_from (Z.to_nat totalLen) buf
        else [] in
      (payload, remainder, true).

(** [b[i]] and [b[i] = v] on a buffer that has index [i]. *)
Definition getByte (i : nat) (b : list byte) : byte := nth i b x00.
Definition setByte (i : nat) (v : byte) (b : list byte) : list byte :=
  store i [v] b.

(** [x ^ y] on bytes. *)
Definition xor_byte (x y : byte) : byte :=
  mk_byte (Z.lxor (byte_val x) (byte_val y)).

(** One pass of the bit-reversal loop of [makeCommKey]; [k] is a [uint32]. *)
Definition reverseStep (key : Z) (k : Z) (i : nat) : Z :=
  if negb (Z.land key (Z.shiftl 1 (Z.of_nat i)) =? 0)
  then Z.lor (u32 (Z.shiftl k 1)) 1
  else u32 (Z.shiftl k 1).

Definition makeCommKey (key : Z) (sessionID : Z) : list byte :=
  let k := fold_left (reverseStep key) (seq 0 32) 0 in
  let k := u32 (k + u32 sessionID) in
  let b := repeat x00 4 in
  let b := store 0 (PutUint32 k) b in
  let xorKeys := [x5a; x4b; x53; x4f] in
  let b :=
    fold_left
      (fun b i => setByte i (xor_byte (getByte i b) (getByte i xorKeys)) b)
      (seq 0 4) b in
  let s1 := Uint16 (slice 0 2 b) in
  let s2 := Uint16 (slice 2 4 b) in
  let b := store 0 (PutUint16 s2) b in
  let b := store 2 (PutUint16 s1) b in
  let mask := mk_byte (Z.land 255 50) in
  let b := setByte 0 (xor_byte (getByte 0 b) mask) b in
  let b := setByte 1 (xor_byte (getByte 1 b) mask) b in
  let b := setByte 2 mask b in
  let b := setByte 3 (xor_byte (getByte 3 b) mask) b in
  b.

(** The fields of a [time.Time] the codec reads ([t.Year()], [t.Month()],
    ...) and hands to [time.Date]; calendar normalisation and time zones,
    which [time.Date] applies to fields that name no real instant, are
    outside the model. *)
Record Time : Type := Date {
  Year : Z; Month : Z; Day : Z; Hour : Z; Minute : Z; Second : Z
}.


Definition decodeTime (t : Z) : Time :=
  let second := t mod 60 in
  let t := t / 60 in
  let minute := t mod 60 in
  let t := t / 60 in
  let hour := t mod 24 in
  let t := t / 24 in
  let day := t mod 31 + 1 in
  let t := t / 31 in
  let month := t mod 12 + 1 in
  let t := t / 12 in
  let year := t + 2000 in
  Date year month day hour minute second.

(* ================================================================== *)
(** ** The client and its connection *)

(** One result of [conn.Read]: the bytes it delivered, or its error. *)
Inductive read_result : Type :=
| ReadOk (bs : list byte)
| ReadErr (e : net_error).

(** The socket as the client sees it: what the successive reads will
    return (a read with nothing left to return runs into its deadline),
    what has been written so far, and whether writes fail. *)
Record Conn : Type := mkConn {
  incoming : list read_result;
  outgoing : list (list byte);
  writeErr : option net_error
}.

(** The fields of [ZKTeco] the protocol engine reads or writes; the dial
    parameters (host, port, timeout, tunnel) play no part below. *)
Record ZKTeco : Type := mkZKTeco {
  protocol : String.string;
  conn : option Conn;
  sessionID : Z;
  replyID : Z;
  lastData : list byte;
  tcpBuffer : list byte
}.

Definition set_conn (c : option Conn) (z : ZKTeco) : ZKTeco :=
  mkZKTeco (protocol z) c (sessionID z) (replyID z) (lastData z) (tcpBuffer z).
Definition set_replyID (r : Z) (z : ZKTeco) : ZKTeco :=
  mkZKTeco (protocol z) (conn z) (sessionID z) r (lastData z) (tcpBuffer z).
Definition set_lastData (d : list byte) (z : ZKTeco) : ZKTeco :=
  mkZKTeco (protocol z) (conn z) (sessionID z) (replyID z) d (tcpBuffer z).
Definition set_tcpBuffer (b : list byte) (z : ZKTeco) : ZKTeco :=
  mkZKTeco (protocol z) (conn z) (sessionID z) (replyID z) (lastData z) b.

(** A method with receiver [z *ZKTeco]: the receiver is mutated in place,
    also when the call ends in an error. *)
Definition M (A : Type) : Type := ZKTeco -> outcome A * ZKTeco.

Definition ret {A} (a : A) : M A := fun z => (Ok a, z).
Definition fail {A} (e : error) : M A := fun z => (Err e, z).
Definition bind {A B} (m : M A) (k : A -> M B) : M B :=
  fun z =>
    match m z with
    | (Ok a, z') => k a z'
    | (Err e, z') => (Err e, z')
    | (Panic, z') => (Panic, z')
    | (Diverged, z') => (Diverged, z')
    end.
Definition get : M ZKTeco := fun z => (Ok z, z).
Definition modify (f : ZKTeco -> ZKTeco) : M unit := fun z => (Ok tt, f z).

(** [if err != nil { return nil, fmt.Errorf("...: %w", err) }]. *)
Definition wrapErr {A} (w : error -> error) (m : M A) : M A :=
  fun z =>
    match m z with
    | (Err e, z') => (Err (w e), z')
    | r => r
    end.

Declare Scope zk_scope.
Delimit Scope zk_scope with zk.
Notation "x <- m ;; k" := (bind m (fun x => k))
  (at level 61, m at next level, right associativity) : zk_scope.
Notation "m ;;; k" := (bind m (fun _ => k))
  (at level 61, right associativity) : zk_scope.
Local Open Scope zk_scope.

Definition IsTCP (z : ZKTeco) : bool := String.eqb (protocol z) "tcp"%string.

(** [z.conn.Read(buf)]. *)
Definition connRead : M (list byte) := fun z =>
  match conn z with
  | None => (Panic, z)
  | Some c =>
      match incoming c with
      | [] => (Err (ErrNet NetTimeout), z)
      | ReadOk bs :: rest =>
          (Ok bs, set_conn (Some (mkConn rest (outgoing c) (writeErr c))) z)
      | ReadErr e :: rest =>
          (Err (ErrNet e),
           set_conn (Some (mkConn rest (outgoing c) (writeErr c))) z)
      end
  end.

(** [z.conn.Write(toSend)]. *)
Definition connWrite (toSend : list byte) : M unit := fun z =>
  match conn z with
  | None => (Panic, z)
  | Some c =>
      match writeErr c with
      | Some e => (Err (ErrNet e), z)
      | None =>
          (Ok tt,
           set_conn
             (Some (mkConn (incoming c) (outgoing c ++ [toSend]) None)) z)
      end
  end.

Definition sendData (data : list byte) : M unit :=
  z <- get ;;
  match conn z with
  | None => fail ErrNotConnected
  | Some _ =>
      let toSend := if IsTCP z then wrapTCP data else data in
      connWrite toSend
  end.

Definition recvUDP : M (list byte) :=
  result <- connRead ;;
  ret result.

(** The [for] loop of [recvTCP]; every pass but the last takes one read. *)
Fixpoint recvTCPLoop (fuel : nat) : M (list byte) :=
  match fuel with
  | O => fun z => (Diverged, z)
  | S fuel' =>
      z <- get ;;
      let '(payload, remainder, ok) := extractTCPPacket (tcpBuffer z) in
      if ok then
        modify (set_tcpBuffer remainder) ;;;
        ret payload
      else
        bs <- connRead ;;
        z <- get ;;
        modify (set_tcpBuffer (tcpBuffer z ++ bs)) ;;;
        recvTCPLoop fuel'
  end.

(** The reads the connection can still answer. *)
Definition pending (z : ZKTeco) : nat :=
  match conn z with
  | None => O
  | Some c => length (incoming c)
  end.

Definition recvTCP : M (list byte) :=
  fun z => recvTCPLoop (S (pending z)) z.

Definition recvData : M (list byte) :=
  z <- get ;;
  match conn z with
  | None => fail ErrNotConnected
  | Some _ => if IsTCP z then recvTCP else recvUDP
  end.

(** [for attempts := 0; attempts < 50; attempts++], [left] passes to go. *)
Fixpoint readNextLoop (left : nat) : M (list byte) :=
  match left with
  | O => fail ErrMaxAttempts
  | S left' =>
      z <- get ;;
      let '(payload, remainder, ok) := extractTCPPacket (tcpBuffer z) in
      if ok then
        modify (set_tcpBuffer remainder) ;;;
        ret payload
      else
        bs <- connRead ;;
        z <- get ;;
        modify (set_tcpBuffer (tcpBuffer z ++ bs)) ;;;
        readNextLoop left'
  end.

Definition readNextTCPPayload : M (list byte) := readNextLoop 50.

(** The next chunk of a bulk transfer: a reassembled frame on TCP, a
    datagram on UDP. *)
Definition readChunk : M (list byte) :=
  z <- get ;;
  if IsTCP z then readNextTCPPayload else connRead.

(** The loop [for received < totalSize] of [recvLargeData]. *)
Fixpoint recvChunks (fuel : nat) (totalSize : Z) (allData : list byte)
    (received : Z) (first : bool) : M (list byte) :=
  if received <? totalSize then
    match fuel with
    | O => fun z => (Diverged, z)
    | S fuel' =>
        chunk <- wrapErr ErrReceiveChunk readChunk ;;
        if first then
          let allData := allData ++ chunk in
          let received :=
            if len chunk >? 8 then received + (len chunk - 8)
            else received in
          recvChunks fuel' totalSize allData received false
        else if len chunk >? 8 then
          let allData := allData ++ slice_from 8 chunk in
          let received := received + (len chunk - 8) in
          recvChunks fuel' totalSize allData received first
        else
          let allData := allData ++ chunk in
          let received := received + len chunk in
          recvChunks fuel' totalSize allData received first
    end
  else ret allData.

(** What bounds the passes of that loop: every chunk read takes a read
    off the connection or at least eight bytes off the TCP buffer. *)
Definition readSize (r : read_result) : nat :=
  match r with
  | ReadOk bs => S (length bs)
  | ReadErr _ => 1%nat
  end.

Definition backlog (z : ZKTeco) : nat :=
  (length (tcpBuffer z)
   + match conn z with
     | None => 0
     | Some c => list_sum (map readSize (incoming c))
     end)%nat.

Definition recvLargeData (prepareResp : list byte) : M (list byte) :=
  if len prepareResp <? 12
  then fail (ErrPrepareTooShort (len prepareResp))
  else
    let totalSize := Uint32 (slice 8 12 prepareResp) in
    if totalSize <=? 0 then ret []
    else
      z <- get ;;
      allData <- recvChunks (S (backlog z)) totalSize [] 0 true ;;
      finalResp <- wrapErr ErrFinalAck recvData ;;
      modify (set_lastData finalResp) ;;;
      ret allData.

Definition command (cmd : Z) (data : list byte) (cmdType : String.string)
  : M (list byte) :=
  z <- get ;;
  (if len (lastData z) >=? 8
   then modify (set_replyID (Uint16 (slice 6 8 (lastData z))))
   else ret tt) ;;;
  z <- get ;;
  let '(pkt, nextReplyID) := createHeader cmd (sessionID z) (replyID z) data in
  sendData pkt ;;;
  resp <- recvData ;;
  modify (set_replyID nextReplyID) ;;;
  modify (set_lastData resp) ;;;
  if String.eqb cmdType "data"%string then ret resp
  else
    z <- get ;;
    if negb (sessionID z =? 0) && (len resp >=? 6) then
      let respSessionID := Uint16 (slice 4 6 resp) in
      if negb (respSessionID =? sessionID z)
      then fail (ErrSessionMismatch (sessionID z) respSessionID)
      else ret resp
    else ret resp.

Definition commandData (cmd : Z) (data : list byte) : M (list byte) :=
  resp <- command cmd data "data"%string ;;
  match parsePacket resp with
  | Ok pkt =>
      if Command pkt =? CMD_PREPARE_DATA then recvLargeData resp
      else if (Command pkt =? CMD_ACK_DATA) || (Command pkt =? CMD_ACK_OK)
      then ret resp
      else fail (ErrUnexpectedResponse (Command pkt))
  | Err e => fail e
  | Panic => fun z => (Panic, z)
  | Diverged => fun z => (Diverged, z)
  end.

(* ================================================================== *)
(** ** Event stream *)

(** One invocation of the caller's [callback]: the frame that was decoded
    and the event type it was decoded under. *)
Record handlerCall : Type := mkCall {
  callPayload : list byte;
  callEventType : Z
}.

(** What a run of the polling loop has done so far: the frames its
    receives returned, oldest first, and the calls it made to the handler,
    oldest first. *)
Record pollLog : Type := mkLog {
  frames : list (list byte);
  calls : list handlerCall
}.

Definition logFrame (payload : list byte) (l : pollLog) : pollLog :=
  mkLog (frames l ++ [payload]) (calls l).
Definition logCall (c : handlerCall) (l : pollLog) : pollLog :=
  mkLog (frames l) (calls l ++ [c]).

(** The body of the polling loop after a successful receive: [Some] of the
    event type when the frame is decoded and handed to [callback], [None]
    when one of the four [continue]s is taken. *)
Definition acceptFrame (eventMask : Z) (payload : list byte) : option Z :=
  if len payload <? 4 then None
  else
    let cmdID := Uint16 (slice 0 2 payload) in
    if negb (cmdID =? CMD_REG_EVENT) then None
    else if len payload <? 6 then None
    else
      let eventType := Uint16 (slice 4 6 payload) in
      if Z.land eventType eventMask =? 0 then None
      else Some eventType.

(** [err.(interface{ Timeout() bool })] answering true. *)
Definition timedOut (e : error) : bool :=
  match e with
  | ErrNet ne => isTimeout ne
  | _ => false
  end.

(** The [for] loop of [GetRealTimeEvents].  The wall clock is not part of
    the client: [clock] lists, pass by pass, what the test
    [timeout > 0 && time.Since(startTime) >= timeout] answers.  A run that
    is still polling when [clock] ends is reported as [Diverged], with
    the log it has built. *)
Fixpoint pollEvents (clock : list bool) (eventMask : Z) (log : pollLog)
    (z : ZKTeco) : outcome unit * pollLog * ZKTeco :=
  match clock with
  | [] => (Diverged, log, z)
  | expired :: clock' =>
      if expired then (Ok tt, log, z)
      else
        match (if IsTCP z then recvTCP z else recvUDP z) with
        | (Err e, z') =>
            if timedOut e then pollEvents clock' eventMask log z'
            else (Err (ErrReceiveEvent e), log, z')
        | (Panic, z') => (Panic, log, z')
        | (Diverged, z') => (Diverged, log, z')
        | (Ok payload, z') =>
            let log := logFrame payload log in
            match acceptFrame eventMask payload with
            | None => pollEvents clock' eventMask log z'
            | Some eventType =>
                pollEvents clock' eventMask
                  (logCall (mkCall payload eventType) log) z'
            end
        end
  end.

Definition GetRealTimeEvents (clock : list bool) (eventMask : Z)
    (z : ZKTeco) : outcome unit * pollLog * ZKTeco :=
  let data := store 0 (PutUint32 (u32 eventMask)) (repeat x00 4) in
  match wrapErr ErrRegisterEvents
          (command CMD_REG_EVENT data "general"%string) z with
  | (Ok resp, z') =>
      match parsePacket resp with
      | Ok pkt =>
          if negb (Command pkt =? CMD_ACK_OK)
          then (Err (ErrRegisterResponse (Command pkt)), mkLog [] [], z')
          else pollEvents clock eventMask (mkLog [] []) z'
      | Err e => (Err (ErrParseRegEvent e), mkLog [] [], z')
      | Panic => (Panic, mkLog [] [], z')
      | Diverged => (Diverged, mkLog [] [], z')
      end
  | (Err e, z') => (Err e, mkLog [] [], z')
  | (Panic, z') => (Panic, mkLog [] [], z')
  | (Diverged, z') => (Diverged, mkLog [] [], z')
  end.

(* ================================================================== *)
(** ** Auxiliary definitions for the statements *)

(** The wire format of a base packet: the four 16-bit fields,
    little-endian, followed by the payload. *)
Definition serialize (cmd ck sid rid : Z) (payload : list byte) : list byte :=
  PutUint16 cmd ++ PutUint16 ck ++ PutUint16 sid ++ PutUint16 rid ++ payload.

(** Step 3 of [createHeader] in isolation. *)
Definition nextReply (replyID : Z) : Z :=
  let nextReplyID := u16 (replyID + 1) in
  if nextReplyID >=? ushrtMax then u16 (nextReplyID - ushrtMax)
  else nextReplyID.

(** Eight zero bytes in the TCP buffer: the magic is wrong and the length
    field declares an empty payload, so a whole frame's worth of bytes is
    buffered.  The connection has one more byte to deliver. *)
Definition desyncBuffer : list byte := repeat x00 8.
Definition desyncClient : ZKTeco :=
  mkZKTeco "tcp" (Some (mkConn [ReadOk [x01]] [] None)) 0 0 [] desyncBuffer.

(** A UDP client in session 42 whose device answers the next request with
    an ack-ok packet stamped with session 7. *)
Definition strayReply : list byte := serialize CMD_ACK_OK 0 7 0 [].
Definition sessionClient : ZKTeco :=
  mkZKTeco "udp" (Some (mkConn [ReadOk strayReply] [] None)) 42 65534 [] [].

(** A UDP client whose device answers the next request with ack-data and
    two bytes of payload. *)
Definition smallReply : list byte := serialize CMD_ACK_DATA 0 42 0 [x0a; x0b].
Definition smallClient : ZKTeco :=
  mkZKTeco "udp" (Some (mkConn [ReadOk smallReply] [] None)) 42 65534 [] [].

(** The state [command] builds its packet in: the replyID echoed in bytes
    6 to 8 of the last response, when there is one. *)
Definition primed (z : ZKTeco) : ZKTeco :=
  if len (lastData z) >=? 8
  then set_replyID (Uint16 (slice 6 8 (lastData z))) z
  else z.

(** What one chunk of a bulk transfer adds to the accumulated data and to
    the received count, as the first chunk and as a later one. *)
Definition firstCount (chunk : list byte) : Z :=
  if len chunk >? 8 then len chunk - 8 else 0.
Definition nextKeep (chunk : list byte) : list byte :=
  if len chunk >? 8 then slice_from 8 chunk else chunk.
Definition nextCount (chunk : list byte) : Z :=
  if len chunk >? 8 then len chunk - 8 else len chunk.

Fixpoint gathered (first : bool) (chunks : list (list byte)) : list byte :=
  match chunks with
  | [] => []
  | c :: cs => (if first then c else nextKeep c) ++ gathered false cs
  end.

Fixpoint counted (first : bool) (chunks : list (list byte)) : Z :=
  match chunks with
  | [] => 0
  | c :: cs => (if first then firstCount c else nextCount c) + counted false cs
  end.

(** The next [n] chunks the transport delivers, when it delivers that
    many without an error, and the client after them. *)
Fixpoint takeChunks (n : nat) (z : ZKTeco)
  : option (list (list byte) * ZKTeco) :=
  match n with
  | O => Some ([], z)
  | S n' =>
      match readChunk z with
      | (Ok chunk, z1) =>
          match takeChunks n' z1 with
          | Some (cs, z') => Some (chunk :: cs, z')
          | None => None
          end
      | _ => None
      end
  end.

(** A bulk transfer over UDP: the prepare response advertises ten bytes;
    the device sends a first datagram of eight header bytes and five data
    bytes, a second datagram of five bytes, and the acknowledgement. *)
Definition bulkPrepare : list byte :=
  serialize CMD_PREPARE_DATA 0 42 0 (PutUint32 10).
Definition bulkFirst : list byte :=
  repeat x00 8 ++ [x01; x02; x03; x04; x05].
Definition bulkShort : list byte := [x06; x07; x08; x09; x0a].
Definition bulkAck : list byte := serialize CMD_ACK_OK 0 42 0 [].
Definition bulkClient : ZKTeco :=
  mkZKTeco "udp"
    (Some (mkConn [ReadOk bulkFirst; ReadOk bulkShort; ReadOk bulkAck] [] None))
    42 0 bulkPrepare [].

(** The handler calls a received frame gives rise to: one or none. *)
Definition delivered (eventMask : Z) (frame : list byte) : list handlerCall :=
  match acceptFrame eventMask frame with
  | Some eventType => [mkCall frame eventType]
  | None => []
  end.

(** The receive of one pass of the polling loop. *)
Definition pollReceive (z : ZKTeco) : outcome (list byte) * ZKTeco :=
  if IsTCP z then recvTCP z else recvUDP z.

(** A UDP client subscribing to attendance events (mask 1): the device
    acknowledges, then sends an ack-ok frame, an unlock event (type 32) and
    an attendance event (type 1). *)
Definition eventAck : list byte := serialize CMD_ACK_OK 0 42 0 [].
Definition eventUnlock : list byte := serialize CMD_REG_EVENT 0 32 0 [x01; x02].
Definition eventAttendance : list byte := serialize CMD_REG_EVENT 0 1 0 [x05].
Definition eventClient : ZKTeco :=
  mkZKTeco "udp"
    (Some (mkConn [ReadOk eventAck; ReadOk eventAck; ReadOk eventUnlock;
                   ReadOk eventAttendance] [] None))
    42 65534 [] [].

(** What the transport leaves alone: it touches the connection and the TCP
    buffer only. *)
Definition sameSession (z z' : ZKTeco) : Prop :=
  protocol z' = protocol z /\ sessionID z' = sessionID z
  /\ replyID z' = replyID z /\ lastData z' = lastData z.

Definition keepsSession {A} (m : M A) : Prop :=
  forall z r z', m z = (r, z') -> sameSession z z'.

(* ================================================================== *)
(** ** The specification's own wording, for comparison *)

(** The checksum as the specification words it: the running sum of the
    16-bit little-endian words, a carry above 65535 folded back by
    subtracting 65535; a trailing odd byte added directly; the sum negated,
    decremented by one, and 65535 added until it is not negative. *)
Fixpoint specWordSum (data : list byte) (acc : Z) : Z :=
  match data with
  | lo :: hi :: rest =>
      let acc := acc + (byte_val lo + 256 * byte_val hi) in
      specWordSum rest (if 65535 <? acc then acc - 65535 else acc)
  | [odd] => acc + byte_val odd
  | [] => acc
  end.

(** Adding 65535 to a negative number until it is not negative lands on
    its residue modulo 65535. *)
Definition specNormalize (x : Z) : Z := x mod 65535.

Definition specChecksum (data : list byte) : Z :=
  specNormalize (- specWordSum data 0 - 1).

(** The auth key as the specification words it. *)
Definition specBitReverse32 (x : Z) : Z :=
  fold_right
    (fun i acc => acc + if Z.testbit x (Z.of_nat i) then 2 ^ (31 - Z.of_nat i) else 0)
    0 (seq 0 32).

Definition specXor (x : byte) (c : Z) : byte :=
  mk_byte (Z.lxor (byte_val x) c).

Definition specCommKey (password sessionID : Z) : list byte :=
  let v := (specBitReverse32 password + sessionID) mod 2 ^ 32 in
  (* little-endian u32 *)
  let b0 := mk_byte v in
  let b1 := mk_byte (v / 2 ^ 8) in
  let b2 := mk_byte (v / 2 ^ 16) in
  let b3 := mk_byte (v / 2 ^ 24) in
  (* XOR with "ZKSO": 'Z' = 90, 'K' = 75, 'S' = 83, 'O' = 79 *)
  let c0 := specXor b0 90 in
  let c1 := specXor b1 75 in
  let c2 := specXor b2 83 in
  let c3 := specXor b3 79 in
  (* the two 16-bit halves swapped: c2 c3 c0 c1; then the 0x32 mask *)
  [specXor c2 50; specXor c3 50; mk_byte 50; specXor c1 50].

(* ================================================================== *)
(** ** Further definitions: states used in the examples of the transport *)

(** A TCP client that holds the first five bytes of a frame and whose
    connection delivers the rest of it in two reads, the second of which
    also carries two bytes of the next frame. *)
Definition splitPayload : list byte := [x0a; x0b; x0c].
Definition splitClient : ZKTeco :=
  mkZKTeco "tcp"
    (Some (mkConn
             [ReadOk (firstn 4 (skipn 5 (wrapTCP splitPayload)));
              ReadOk (skipn 9 (wrapTCP splitPayload) ++ [x50; x50]);
              ReadOk [x82]] [] None))
    42 0 [] (firstn 5 (wrapTCP splitPayload)).

(** A TCP client whose connection answers fifty reads with no bytes. *)
Definition idleClient : ZKTeco :=
  mkZKTeco "tcp" (Some (mkConn (repeat (ReadOk []) 50 ++ [ReadOk [x01]]) [] None))
    42 0 [] [].

(** What no exchange touches: the transport in use and the session. *)
Definition sameIdentity (z z' : ZKTeco) : Prop :=
  protocol z' = protocol z /\ sessionID z' = sessionID z.

(** A chunk of a bulk transfer made of its eight-byte sub-header and its
    data. *)
Definition joinPart (part : list byte * list byte) : list byte :=
  fst part ++ snd part.

(** A bulk transfer over TCP in two chunks of three and two data bytes,
    the frames already buffered, the acknowledgement still to be read. *)
Definition tcpBulkPrepare : list byte :=
  serialize CMD_PREPARE_DATA 0 42 0 (PutUint32 5).
Definition tcpBulkParts : list (list byte * list byte) :=
  [(repeat x00 8, [x01; x02; x03]); (repeat xff 8, [x04; x05])].
Definition tcpBulkClient : ZKTeco :=
  mkZKTeco "tcp"
    (Some (mkConn [ReadOk (wrapTCP bulkAck)] [] None))
    42 0 tcpBulkPrepare
    (wrapTCP (repeat x00 8 ++ [x01; x02; x03])
     ++ wrapTCP (repeat xff 8 ++ [x04; x05])).

(* ================================================================== *)
(** ** Further definitions: strings, hex and the record parsers *)

(** A Go [string] is its bytes.  [strings.TrimRight(s, "\x00")], whose
    cutset is the single byte [c]: the trailing bytes equal to [c] go. *)
Fixpoint trimRightByte (c : byte) (s : list byte) : list byte :=
  match s with
  | [] => []
  | b :: s' =>
      match trimRightByte c s' with
      | [] => if Byte.eqb b c then [] else [b]
      | t => b :: t
      end
  end.

(** [hex.EncodeToString]: two digits of "0123456789abcdef" per byte, the
    high nibble first. *)
Definition hextable : list byte :=
  [x30; x31; x32; x33; x34; x35; x36; x37; x38; x39;
   x61; x62; x63; x64; x65; x66].

Definition EncodeToString (src : list byte) : list byte :=
  flat_map
    (fun v =>
       [nth (Z.to_nat (Z.shiftr (byte_val v) 4)) hextable x00;
        nth (Z.to_nat (Z.land (byte_val v) 15)) hextable x00])
    src.

(** The value [strconv] gives a digit in base 16: '0'..'9', and the letters
    of either case from 'a' on, of which only 'a'..'f' are below the base. *)
Definition digitVal (c : byte) : option Z :=
  let v := byte_val c in
  if (48 <=? v) && (v <=? 57) then Some (v - 48)
  else
    let l := Z.lor v 32 in
    if (97 <=? l) && (l <=? 122) then Some (l - 97 + 10)
    else None.

(** The digit loop of [strconv.ParseUint(s, 16, bitSize)] with the error
    dropped: 0 at a character that is no digit of the base, the largest
    value of the bit size once the number outgrows it. *)
Fixpoint parseUintLoop (bitSize : Z) (s : list byte) (n : Z) : Z :=
  match s with
  | [] => n
  | c :: s' =>
      match digitVal c with
      | None => 0
      | Some d =>
          if d >=? 16 then 0
          else if n >=? 2 ^ 64 / 16 then 2 ^ bitSize - 1
          else
            let n1 := n * 16 + d in
            if n1 >? 2 ^ bitSize - 1 then 2 ^ bitSize - 1
            else parseUintLoop bitSize s' n1
      end
  end.

Definition ParseUint16 (bitSize : Z) (s : list byte) : Z :=
  match s with
  | [] => 0
  | _ => parseUintLoop bitSize s 0
  end.

(** [strconv.ParseInt(s, 16, 64)] with the error dropped: an optional
    sign, the digits as above, the result clamped to the signed range. *)
Definition ParseInt16 (s : list byte) : Z :=
  match s with
  | [] => 0
  | c :: s' =>
      let neg := Byte.eqb c x2d in
      let digits := if Byte.eqb c x2b || neg then s' else s in
      match digits with
      | [] => 0
      | _ =>
          let un := parseUintLoop 64 digits 0 in
          if negb neg && (un >=? 2 ^ 63) then 2 ^ 63 - 1
          else if neg && (un >? 2 ^ 63) then - 2 ^ 63
          else if neg then - un else un
      end
  end.

(** The loop of [reverseHex]: [i] starts at [len(hexStr) - 2] and goes
    down by two while it is not negative. *)
Fixpoint reverseHexLoop (fuel : nat) (i : Z) (hexStr result : list byte)
  : list byte :=
  match fuel with
  | O => result
  | S fuel' =>
      if i >=? 0
      then reverseHexLoop fuel' (i - 2) hexStr
             (result ++ slice (Z.to_nat i) (Z.to_nat (i + 2)) hexStr)
      else result
  end.

(** Each pass takes two characters, so [len(hexStr)] passes are enough. *)
Definition reverseHex (hexStr : list byte) : list byte :=
  reverseHexLoop (length hexStr) (len hexStr - 2) hexStr [].

Record Attendance : Type := mkAttendance {
  att_UID : Z;
  att_UserID : list byte;
  att_State : Z;
  att_RecordTime : Time;
  att_Type : Z
}.

Definition parseAttendanceRecord (rec : list byte) : option Attendance :=
  if len rec <? 39 then None
  else
    let hexStr := EncodeToString (slice 0 39 rec) in
    if len hexStr <? 68 then None
    else
      let uidLo := ParseInt16 (slice 4 6 hexStr) in
      let uidHi := ParseInt16 (slice 6 8 hexStr) in
      let uid := uidHi * 256 + uidLo in
      if uid =? 0 then None
      else
        let userIDBytes := slice 4 13 rec in
        let userID := trimRightByte x00 userIDBytes in
        let state := ParseInt16 (slice 56 58 hexStr) in
        let timeHex := slice 58 66 hexStr in
        let reversed := reverseHex timeHex in
        let timeVal := ParseUint16 32 reversed in
        let recordTime := decodeTime (u32 timeVal) in
        let typ := ParseInt16 (slice 66 68 hexStr) in
        Some (mkAttendance uid userID state recordTime typ).

(** The record loops of [GetAttendances] and [GetUsers]:
    [for i := 0; i+recordSize <= len(data); i += recordSize], a record kept
    when its parser returns one. *)
Fixpoint recordLoop {A} (parse : list byte -> option A) (recordSize : Z)
    (fuel : nat) (i : Z) (data : list byte) (records : list A) : list A :=
  match fuel with
  | O => records
  | S fuel' =>
      if i + recordSize <=? len data then
        let rec := slice (Z.to_nat i) (Z.to_nat (i + recordSize)) data in
        match parse rec with
        | Some r => recordLoop parse recordSize fuel' (i + recordSize) data
                      (records ++ [r])
        | None => recordLoop parse recordSize fuel' (i + recordSize) data
                    records
        end
      else records
  end.

(** [GetAttendances] from the point where [commandData] has returned
    [allData]. *)
Definition attendancesOf (allData : list byte) : list Attendance :=
  if len allData <=? 8 then []
  else
    let data := if len allData >? 10 then slice_from 10 allData else allData in
    recordLoop parseAttendanceRecord 40 (length data) 0 data [].

Record User : Type := mkUser {
  user_UID : Z;
  user_UserID : list byte;
  user_Name : list byte;
  user_Password : list byte;
  user_Role : Z;
  user_CardNo : Z
}.

Definition parseUserRecord (rec : list byte) : option User :=
  if len rec <? 72 then None
  else
    let uid := Uint16 (slice 1 3 rec) in
    let role := byte_val (nth 3 rec x00) in
    let password := trimRightByte x00 (slice 4 12 rec) in
    let name := trimRightByte x00 (slice 12 36 rec) in
    let cardNo := Uint32 (slice 36 40 rec) in
    let userID := trimRightByte x00 (slice 49 72 rec) in
    Some (mkUser uid userID name password role cardNo).

(** [GetUsers] from the point where [commandData] has returned [allData]. *)
Definition usersOf (allData : list byte) : list User :=
  if len allData <=? 8 then []
  else
    let data := slice_from 8 allData in
    recordLoop parseUserRecord 72 (length data) 0 data [].

(** The pairs of characters of a string, last pair first. *)
Fixpoint revPairs (s : list byte) : list byte :=
  match s with
  | a :: b :: r => revPairs r ++ [a; b]
  | _ => []
  end.

(** The records of [size] bytes a buffer holds, in order; what is left
    over at the end belongs to no record. *)
Fixpoint recordsOf (size : nat) (count : nat) (data : list byte)
  : list (list byte) :=
  match count with
  | O => []
  | S count' => firstn size data :: recordsOf size count' (skipn size data)
  end.

Definition keep {A} (o : option A) : list A :=
  match o with
  | Some a => [a]
  | None => []
  end.

(* ================================================================== *)
(** ** Further definitions: the calls above the exchange *)

Definition CMD_USER_TEMP_RRQ : Z := 9.
Definition CMD_ATT_LOG_RRQ : Z := 13.
Definition CMD_DEVICE : Z := 11.
Definition FCT_USER : Z := 5.

(** The errors of the calls built on [command] and [commandData]: the
    error of the exchange with the name of the call in front
    ([fmt.Errorf("<context>: %w", err)]), that error as it is
    ([return err]), or an error of the call's own. *)
Inductive apiError : Type :=
| Wrapped (context : string) (e : error)
| Returned (e : error)
| ErrorResponse (context : string) (cmd : Z) (* "<context>: error response %d" *)
| OptionResponse (key : list byte) (cmd : Z)
                                   (* "device option %q: error response %d" *)
| AuthFailed (cmd : Z)             (* "authentication failed: command=%d" *)
| DialFailed (e : net_error).      (* "dial %s %s: %w" *)

Inductive apiOutcome (A : Type) : Type :=
| Done (a : A)
| Failed (e : apiError)
| Panicked
| Unfinished.
Arguments Done {A} a.
Arguments Failed {A} e.
Arguments Panicked {A}.
Arguments Unfinished {A}.

Definition GetUsers (z : ZKTeco) : apiOutcome (list User) * ZKTeco :=
  let cmdData := [mk_byte FCT_USER] in
  match commandData CMD_USER_TEMP_RRQ cmdData z with
  | (Ok allData, z') => (Done (usersOf allData), z')
  | (Err e, z') => (Failed (Wrapped "getUsers" e), z')
  | (Panic, z') => (Panicked, z')
  | (Diverged, z') => (Unfinished, z')
  end.

Definition GetAttendances (z : ZKTeco)
  : apiOutcome (list Attendance) * ZKTeco :=
  match commandData CMD_ATT_LOG_RRQ [] z with
  | (Ok allData, z') => (Done (attendancesOf allData), z')
  | (Err e, z') => (Failed (Wrapped "getAttendances" e), z')
  | (Panic, z') => (Panicked, z')
  | (Diverged, z') => (Unfinished, z')
  end.

(** An attendance record of forty bytes: uid 0x0102, user id "42", state
    1, packed time 0x0a0b0c0d, type 4. *)
Definition sampleRecord : list byte :=
  [x00; x00; x02; x01; x34; x32; x00; x00; x00; x00; x00; x00; x00]
  ++ repeat x00 15 ++ [x01; x0d; x0c; x0b; x0a; x04] ++ repeat x00 6.

(** [strings.Index(s, "=")], whose substring is the single byte [c]: the
    index of its first occurrence, -1 when there is none. *)
Fixpoint indexByte (c : byte) (s : list byte) : Z :=
  match s with
  | [] => -1
  | b :: s' =>
      if Byte.eqb b c then 0
      else
        let i := indexByte c s' in
        if i <? 0 then -1 else i + 1
  end.

Definition getDeviceOption (key : list byte) (z : ZKTeco)
  : apiOutcome (list byte) * ZKTeco :=
  match command CMD_DEVICE key "general" z with
  | (Ok resp, z') =>
      match parsePacket resp with
      | Ok pkt =>
          if negb (Command pkt =? CMD_ACK_OK)
             && negb (Command pkt =? CMD_ACK_DATA)
          then (Failed (OptionResponse key (Command pkt)), z')
          else
            let value := Data pkt in
            let idx := indexByte x3d value in
            let value :=
              if idx >=? 0 then slice_from (Z.to_nat (idx + 1)) value
              else value in
            let value := trimRightByte x00 value in
            (Done value, z')
      | Err e => (Failed (Returned e), z')
      | Panic => (Panicked, z')
      | Diverged => (Unfinished, z')
      end
  | (Err e, z') => (Failed (Returned e), z')
  | (Panic, z') => (Panicked, z')
  | (Diverged, z') => (Unfinished, z')
  end.

(** A UDP client whose device answers a device-option request with
    "~SerialNumber=A=1" and two NULs. *)
Definition optionReply : list byte :=
  serialize CMD_ACK_OK 0 42 0
    ([x7e; x53; x4e] ++ [x3d] ++ [x41; x3d; x31] ++ repeat x00 2).
Definition optionClient : ZKTeco :=
  mkZKTeco "udp" (Some (mkConn [ReadOk optionReply] [] None)) 42 65534 [] [].

(** A UDP client after registration whose line stays quiet. *)
Definition quietClient : ZKTeco :=
  mkZKTeco "udp" (Some (mkConn [] [] None)) 42 0 [] [].

(* ================================================================== *)
(** ** Further definitions: connecting and disconnecting *)

Definition set_sessionID (s : Z) (z : ZKTeco) : ZKTeco :=
  mkZKTeco (protocol z) (conn z) s (replyID z) (lastData z) (tcpBuffer z).

(** [Connect] of a client that reaches the device directly
    ([tcpmuxEnabled] false).  [password] is the client's configured
    password; [dial] is what [net.DialTimeout] returned.  The boolean of the
    result tells whether [z.conn.Close()] was called. *)
Definition Connect (password : Z) (dial : Conn + net_error) (z : ZKTeco)
  : apiOutcome unit * ZKTeco * bool :=
  match dial with
  | inr e => (Failed (DialFailed e), set_conn None z, false)
  | inl c =>
      let z := set_conn (Some c) z in
      let z := set_sessionID 0 z in
      let z := set_replyID 65534 z in
      let z := set_tcpBuffer [] z in
      match command CMD_CONNECT [] "general" z with
      | (Err e, z) => (Failed (Wrapped "connect command" e), z, true)
      | (Panic, z) => (Panicked, z, false)
      | (Diverged, z) => (Unfinished, z, false)
      | (Ok resp, z) =>
          match parsePacket resp with
          | Err e => (Failed (Wrapped "parse connect response" e), z, true)
          | Panic => (Panicked, z, false)
          | Diverged => (Unfinished, z, false)
          | Ok pkt =>
              let z := set_sessionID (SessionID pkt) z in
              if Command pkt =? CMD_ACK_UNAUTH then
                let authKey := makeCommKey password (sessionID z) in
                match command CMD_ACK_AUTH authKey "general" z with
                | (Err e, z) => (Failed (Wrapped "auth command" e), z, true)
                | (Panic, z) => (Panicked, z, false)
                | (Diverged, z) => (Unfinished, z, false)
                | (Ok resp2, z) =>
                    match parsePacket resp2 with
                    | Err e =>
                        (Failed (Wrapped "parse auth response" e), z, true)
                    | Panic => (Panicked, z, false)
                    | Diverged => (Unfinished, z, false)
                    | Ok pkt2 =>
                        if negb (Command pkt2 =? CMD_ACK_OK)
                        then (Failed (AuthFailed (Command pkt2)), z, true)
                        else (Done tt, z, false)
                    end
                end
              else (Done tt, z, false)
          end
      end
  end.

(** [Disconnect]; [closeErr] is what [z.conn.Close()] returns. *)
Definition Disconnect (closeErr : option net_error) (z : ZKTeco)
  : apiOutcome unit * ZKTeco :=
  match conn z with
  | None => (Done tt, z)
  | Some _ =>
      match command CMD_EXIT [] "general" z with
      | (Panic, z) => (Panicked, z)
      | (Diverged, z) => (Unfinished, z)
      | (_, z) =>
          let z := set_sessionID 0 z in
          let z := set_conn None z in
          match closeErr with
          | Some e => (Failed (Returned (ErrNet e)), z)
          | None => (Done tt, z)
          end
      end
  end.

(** The state in which [Connect] makes its first exchange. *)
Definition dialed (c : Conn) (z : ZKTeco) : ZKTeco :=
  set_tcpBuffer [] (set_replyID 65534 (set_sessionID 0 (set_conn (Some c) z))).

(** The replyID the first packet of [Connect] is built with: 65534, unless
    a response of an earlier session is still on record. *)
Definition connectReplyID (z : ZKTeco) : Z :=
  if len (lastData z) >=? 8 then Uint16 (slice 6 8 (lastData z)) else 65534.

(** A device that answers the connect request with "unauthenticated" in
    session 42 and the key with ack-ok; the client has password 55. *)
Definition unauthReply : list byte := serialize CMD_ACK_UNAUTH 0 42 0 [].
Definition authOkReply : list byte := serialize CMD_ACK_OK 0 42 1 [].
Definition lockedDevice : Conn :=
  mkConn [ReadOk unauthReply; ReadOk authOkReply] [] None.
Definition freshClient : ZKTeco := mkZKTeco "udp" None 0 65534 [] [].

(** A device that answers the connect request with ack-error in session 9. *)
Definition grumpyDevice : Conn :=
  mkConn [ReadOk (serialize CMD_ACK_ERROR 0 9 0 [])] [] None.


(** A step that, on a client holding a connection, comes back with a result
    or an error and leaves the client holding a connection. *)
Definition staysConnected {A} (m : M A) : Prop :=
  forall z, conn z <> None ->
    fst (m z) <> Panic /\ fst (m z) <> Diverged /\ conn (snd (m z)) <> None.

(* ================================================================== *)
(** ** Further definitions: devices that answer with a bulk transfer *)

(** A UDP client whose device answers the user request with a transfer of
    one chunk holding one 72-byte record, then the acknowledgement. *)
Definition usersParts : list (list byte * list byte) :=
  [(repeat x00 8, repeat x01 72)].
Definition usersClient : ZKTeco :=
  mkZKTeco "udp"
    (Some (mkConn [ReadOk (serialize CMD_PREPARE_DATA 0 42 0 (PutUint32 72));
                   ReadOk (repeat x00 8 ++ repeat x01 72);
                   ReadOk bulkAck] [] None))
    42 65534 [] [].

(** A UDP client whose device answers the attendance request with a
    transfer in two chunks: two bytes and the first seven bytes of a
    record, then the rest of the record. *)
Definition attendanceParts : list (list byte * list byte) :=
  [(repeat x00 8, [xaa; xbb] ++ firstn 7 sampleRecord);
   (repeat xff 8, skipn 7 sampleRecord)].
Definition attendanceClient : ZKTeco :=
  mkZKTeco "udp"
    (Some (mkConn [ReadOk (serialize CMD_PREPARE_DATA 0 42 0 (PutUint32 42));
                   ReadOk (repeat x00 8 ++ [xaa; xbb] ++ firstn 7 sampleRecord);
                   ReadOk (repeat xff 8 ++ skipn 7 sampleRecord);
                   ReadOk bulkAck] [] None))
    42 65534 [] [].

(* ================================================================== *)
(** * Properties *)

(** ** Bytes *)

Lemma byte_val_range (b : byte) : 0 <= byte_val b < 256.
Proof.
  unfold byte_val. pose proof (Byte.to_N_bounded b). lia.
Qed.

Lemma mk_byte_val (b : byte) : mk_byte (byte_val b) = b.
Proof.
  unfold mk_byte. pose proof (byte_val_range b) as Hr.
  rewrite Z.mod_small by exact Hr.
  unfold byte_val. rewrite N2Z.id, Byte.of_to_N. reflexivity.
Qed.

Lemma byte_val_mk (z : Z) : byte_val (mk_byte z) = z mod 256.
Proof.
  unfold mk_byte, byte_val.
  pose proof (Z.mod_pos_bound z 256 ltac:(lia)) as Hm.
  destruct (Byte.of_N (Z.to_N (z mod 256))) as [b|] eqn:E.
  - apply Byte.to_of_N in E. rewrite E. lia.
  - apply Byte.of_N_None_iff in E. lia.
Qed.

Lemma Uint16_PutUint16 (v : Z) (rest : list byte) :
  is_u16 v -> Uint16 (PutUint16 v ++ rest) = v.
Proof.
  unfold is_u16, Uint16, PutUint16. intros Hv. cbn [app].
  rewrite !byte_val_mk, Z.shiftr_div_pow2 by lia.
  change (2 ^ 8) with 256.
  rewrite (Z.mod_small (v / 256)).
  - pose proof (Z.div_mod v 256 ltac:(lia)). lia.
  - split; [apply Z.div_pos; lia | apply Z.div_lt_upper_bound; lia].
Qed.

Lemma Uint16_range (s : list byte) : is_u16 (Uint16 s).
Proof.
  unfold is_u16, Uint16.
  destruct s as [|b0 [|b1 s]]; try lia.
  pose proof (byte_val_range b0). pose proof (byte_val_range b1). lia.
Qed.

Lemma Uint32_PutUint32 (v : Z) (rest : list byte) :
  0 <= v < 4294967296 -> Uint32 (PutUint32 v ++ rest) = v.
Proof.
  unfold Uint32, PutUint32. intros Hv. cbn [app].
  rewrite !byte_val_mk, !Z.shiftr_div_pow2 by lia.
  change (2 ^ 8) with 256. change (2 ^ 16) with 65536.
  change (2 ^ 24) with 16777216.
  pose proof (Z.div_mod v 256 ltac:(lia)) as H0.
  pose proof (Z.div_mod (v / 256) 256 ltac:(lia)) as H1.
  pose proof (Z.div_mod (v / 256 / 256) 256 ltac:(lia)) as H2.
  rewrite Z.div_div in H1, H2 by lia.
  rewrite Z.div_div in H2 by lia.
  change (256 * 256) with 65536 in *.
  change (65536 * 256) with 16777216 in *.
  rewrite (Z.mod_small (v / 16777216)).
  - lia.
  - split; [apply Z.div_pos; lia | apply Z.div_lt_upper_bound; lia].
Qed.

Lemma len_app (a b : list byte) : len (a ++ b) = len a + len b.
Proof. unfold len. rewrite length_app. lia. Qed.

Lemma len_nonneg (a : list byte) : 0 <= len a.
Proof. unfold len. lia. Qed.

(** Lists of bytes, two at a time. *)
Lemma pair_induction (P : list byte -> Prop) :
  P [] -> (forall a, P [a]) ->
  (forall a b l, P l -> P (a :: b :: l)) ->
  forall l, P l.
Proof.
  intros H0 H1 H2.
  assert (H : forall l, P l /\ forall a, P (a :: l)).
  { induction l as [|x l [IH1 IH2]].
    - split; [exact H0 | exact H1].
    - split; [apply IH2 | intros a; apply H2; exact IH1]. }
  intros l. apply H.
Qed.

(** ** The checksum *)

Lemma sumWords_range (data : list byte) :
  forall acc, 0 <= acc <= 65535 -> 0 <= sumWords data acc <= 65535.
Proof.
  induction data as [| a | a b l IH] using pair_induction; intros acc Hacc;
    cbn [sumWords]; try exact Hacc.
  apply IH. unfold Uint16, ushrtMax.
  pose proof (byte_val_range a). pose proof (byte_val_range b).
  destruct (Z.gtb_spec (acc + (byte_val a + 256 * byte_val b)) 65535); lia.
Qed.

Lemma specWordSum_sumWords (data : list byte) :
  forall acc,
    specWordSum data acc =
    if Nat.odd (length data)
    then sumWords data acc + byte_val (last data x00)
    else sumWords data acc.
Proof.
  induction data as [| a | a b l IH] using pair_induction; intros acc.
  - reflexivity.
  - reflexivity.
  - cbn [specWordSum sumWords length]. rewrite IH.
    change (Nat.odd (S (S (length l)))) with (Nat.odd (length l)).
    unfold Uint16, ushrtMax. rewrite Z.gtb_ltb.
    destruct l; reflexivity.
Qed.

(** The first normalising loop leaves its condition false whenever it was
    given as many passes as [calculateChecksum] gives it, and keeps the
    residue modulo 65535. *)
Lemma foldAbove_spec (fuel : nat) :
  forall c, 0 <= c <= 65535 * Z.of_nat fuel + 65535 ->
    let r := foldAbove fuel c in
    0 <= r <= 65535 /\ r mod 65535 = c mod 65535 /\ (r = 0 <-> c = 0).
Proof.
  induction fuel as [|fuel IH]; intros c Hc; cbn [foldAbove].
  - cbn in Hc. repeat split; lia.
  - unfold ushrtMax. destruct (Z.gtb_spec c 65535) as [Hgt|Hle].
    + destruct (IH (c - 65535) ltac:(lia)) as (Hr & Hm & Hz).
      repeat split; try lia.
      * rewrite Hm. replace (c - 65535) with (c + (-1) * 65535) by lia.
        apply Z.mod_add. lia.
    + repeat split; lia.
Qed.

(** The second loop, likewise: from a negative number it climbs to the
    residue modulo 65535. *)
Lemma liftBelow_spec (fuel : nat) :
  forall c, - (65535 * Z.of_nat fuel) <= c < 0 ->
    liftBelow fuel c = c mod 65535.
Proof.
  induction fuel as [|fuel IH]; intros c Hc; cbn [liftBelow].
  - lia.
  - unfold ushrtMax. destruct (Z.ltb_spec c 0) as [Hlt|Hge]; [|lia].
    destruct (Z.ltb_spec (c + 65535) 0) as [Hneg|Hpos].
    + rewrite IH by lia.
      replace (c + 65535) with (c + 1 * 65535) by lia.
      apply Z.mod_add. lia.
    + destruct fuel; cbn [liftBelow]; unfold ushrtMax.
      * apply (Z.mod_unique _ _ (-1)); lia.
      * destruct (Z.ltb_spec (c + 65535) 0); [lia|].
        apply (Z.mod_unique _ _ (-1)); lia.
Qed.

(** On the negative numbers the specification normalises, the residue is
    what repeated addition of 65535 stops at: not negative, and one
    addition fewer would leave it negative. *)
Lemma specNormalize_least (x : Z) :
  x < 0 ->
  exists k, 0 < k /\ specNormalize x = x + k * 65535 /\
            0 <= specNormalize x /\ x + (k - 1) * 65535 < 0.
Proof.
  intros Hx. unfold specNormalize.
  pose proof (Z.div_mod x 65535 ltac:(lia)) as E.
  pose proof (Z.mod_pos_bound x 65535 ltac:(lia)) as B.
  exists (- (x / 65535)). repeat split; try lia.
Qed.

(** The checksum in closed form. *)
Lemma calculateChecksum_closed (data : list byte) :
  calculateChecksum data = (- specWordSum data 0 - 1) mod 65535.
Proof.
  unfold calculateChecksum. rewrite specWordSum_sumWords.
  pose proof (sumWords_range data 0 ltac:(lia)) as Hs.
  set (s := if Nat.odd (length data)
            then sumWords data 0 + byte_val (last data x00)
            else sumWords data 0).
  assert (Hs' : 0 <= s <= 65535 + 255).
  { subst s. pose proof (byte_val_range (last data x00)).
    destruct (Nat.odd (length data)); lia. }
  assert (Hfuel : 0 <= s <= 65535 * Z.of_nat (Z.abs_nat s) + 65535).
  { rewrite Zabs2Nat.id_abs, Z.abs_eq; lia. }
  destruct (foldAbove_spec (Z.abs_nat s) s Hfuel) as (Hr & Hm & Hz).
  set (r := foldAbove (Z.abs_nat s) s) in *.
  assert (Hneg : (if r >? 0 then - r else r) = - r).
  { destruct (Z.gtb_spec r 0); lia. }
  rewrite Hneg.
  rewrite liftBelow_spec.
  - unfold u16. rewrite Z.mod_small.
    + pose proof (Z.div_mod r 65535 ltac:(lia)) as Er.
      pose proof (Z.div_mod s 65535 ltac:(lia)) as Es.
      replace (- s - 1) with (- r - 1 + (r / 65535 - s / 65535) * 65535)
        by lia.
      rewrite Z.mod_add by lia. reflexivity.
    + pose proof (Z.mod_pos_bound (- r - 1) 65535 ltac:(lia)). lia.
  - rewrite Zabs2Nat.id_abs. lia.
Qed.

Lemma calculateChecksum_range (data : list byte) :
  0 <= calculateChecksum data < 65535.
Proof.
  rewrite calculateChecksum_closed. apply Z.mod_pos_bound. lia.
Qed.

(** C2.  [calculateChecksum] computes the checksum the specification
    describes (word sum with the carry folded back, trailing odd byte added,
    negated, decremented, normalised by adding 65535), on every byte
    sequence, and its result lies in the range 0 to 65534. *)
Theorem calculateChecksum_matches_spec (data : list byte) :
  calculateChecksum data = specChecksum data
  /\ 0 <= calculateChecksum data < 65535.
Proof.
  split.
  - apply calculateChecksum_closed.
  - apply calculateChecksum_range.
Qed.

(** ** Packets *)

Lemma u16_field (v : Z) :
  is_u16 v -> byte_val (mk_byte v) + 256 * byte_val (mk_byte (Z.shiftr v 8)) = v.
Proof.
  intros Hv. exact (Uint16_PutUint16 v [] Hv).
Qed.

Lemma len_serialize cmd ck sid rid payload :
  len (serialize cmd ck sid rid payload) = 8 + len payload.
Proof.
  unfold serialize, len. rewrite !length_app. cbn [PutUint16 length]. lia.
Qed.

Lemma parsePacket_short (data : list byte) :
  len data < 8 -> parsePacket data = Err (ErrPacketTooShort (len data)).
Proof.
  intros H. unfold parsePacket.
  destruct (Z.ltb_spec (len data) 8); [reflexivity | lia].
Qed.

Lemma parsePacket_long (data : list byte) :
  8 <= len data ->
  parsePacket data =
  Ok (mkPacket (Uint16 (slice 0 2 data)) (Uint16 (slice 2 4 data))
        (Uint16 (slice 4 6 data)) (Uint16 (slice 6 8 data))
        (slice_from 8 data)).
Proof.
  intros H. unfold parsePacket.
  destruct (Z.ltb_spec (len data) 8); [lia|].
  destruct (Z.gtb_spec (len data) 8) as [Hgt|Hle]; cbn [Command Checksum SessionID ReplyID].
  - reflexivity.
  - unfold slice_from. rewrite skipn_all2; [reflexivity|].
    unfold len in *. lia.
Qed.

(** C7.  [parsePacket] fails, with the too-short error, exactly on inputs
    of fewer than eight bytes; and on the eight-byte little-endian header
    of any four 16-bit fields followed by any payload it returns those
    four fields and that payload. *)
Theorem parsePacket_roundtrip (data : list byte) (cmd ck sid rid : Z)
    (payload : list byte) :
  is_u16 cmd -> is_u16 ck -> is_u16 sid -> is_u16 rid ->
  (parsePacket data = Err (ErrPacketTooShort (len data)) <-> len data < 8)
  /\ ((forall p, parsePacket data <> Ok p) <-> len data < 8)
  /\ parsePacket (serialize cmd ck sid rid payload)
     = Ok (mkPacket cmd ck sid rid payload).
Proof.
  intros Hcmd Hck Hsid Hrid. split; [|split].
  - split.
    + intros E. destruct (Z.lt_ge_cases (len data) 8) as [|Hge]; [assumption|].
      rewrite (parsePacket_long data Hge) in E. discriminate.
    + apply parsePacket_short.
  - split.
    + intros E. destruct (Z.lt_ge_cases (len data) 8) as [|Hge]; [assumption|].
      exfalso. eapply E. apply parsePacket_long. exact Hge.
    + intros Hlt p. rewrite (parsePacket_short data Hlt). discriminate.
  - rewrite parsePacket_long.
    + unfold serialize, PutUint16, slice, slice_from, Uint16.
      cbn [app skipn firstn Nat.sub].
      rewrite !u16_field by assumption. reflexivity.
    + rewrite len_serialize. pose proof (len_nonneg payload). lia.
Qed.

Lemma parsePacket_roundtrip_witness :
  parsePacket (serialize 1000 64009 7 6 [x01; x02])
  = Ok (mkPacket 1000 64009 7 6 [x01; x02]).
Proof.
  apply (parsePacket_roundtrip [] 1000 64009 7 6 [x01; x02]);
    unfold is_u16; lia.
Defined.

(** ** Building a packet *)

Lemma nextReply_below (replyID : Z) :
  0 <= replyID < 65535 -> nextReply replyID = (replyID + 1) mod 65535.
Proof.
  intros H. unfold nextReply, u16, ushrtMax.
  rewrite (Z.mod_small (replyID + 1) 65536) by lia.
  destruct (Z.geb_spec (replyID + 1) 65535) as [Hge|Hlt].
  - replace replyID with 65534 by lia. reflexivity.
  - rewrite Z.mod_small by lia. reflexivity.
Qed.

Lemma nextReply_range (replyID : Z) :
  is_u16 replyID -> 0 <= nextReply replyID < 65535.
Proof.
  unfold is_u16. intros H.
  destruct (Z.eq_dec replyID 65535) as [->|Hne]; [vm_compute; split; congruence|].
  rewrite nextReply_below by lia. apply Z.mod_pos_bound. lia.
Qed.

Lemma serialize_checksum_field cmd ck sid rid payload :
  is_u16 ck -> Uint16 (slice 2 4 (serialize cmd ck sid rid payload)) = ck.
Proof.
  intros H. unfold serialize, PutUint16, slice, Uint16.
  cbn [app skipn firstn Nat.sub]. apply u16_field, H.
Qed.

Lemma serialize_session_field cmd ck sid rid payload :
  is_u16 sid -> Uint16 (slice 4 6 (serialize cmd ck sid rid payload)) = sid.
Proof.
  intros H. unfold serialize, PutUint16, slice, Uint16.
  cbn [app skipn firstn Nat.sub]. apply u16_field, H.
Qed.

Lemma serialize_reply_field cmd ck sid rid payload :
  is_u16 rid -> Uint16 (slice 6 8 (serialize cmd ck sid rid payload)) = rid.
Proof.
  intros H. unfold serialize, PutUint16, slice, Uint16.
  cbn [app skipn firstn Nat.sub]. apply u16_field, H.
Qed.

(** The buffer [createHeader] returns, byte for byte: the header of the
    command, the checksum of the buffer as it stood with a zero checksum and
    the replyID it was called with, the session, the replyID of step 3, and
    the payload. *)
Lemma createHeader_layout (cmd sid rid : Z) (data : list byte) :
  createHeader cmd sid rid data =
  (serialize cmd (calculateChecksum (serialize cmd 0 sid rid data)) sid
     (nextReply rid) data,
   nextReply rid).
Proof.
  unfold createHeader. fold (nextReply rid).
  assert (Hbuf :
    (if (0 <? length data)%nat
     then store 8 data
            (store 6 (PutUint16 rid)
               (store 4 (PutUint16 sid)
                  (store 2 (PutUint16 0)
                     (store 0 (PutUint16 cmd) (repeat x00 (8 + length data))))))
     else store 6 (PutUint16 rid)
            (store 4 (PutUint16 sid)
               (store 2 (PutUint16 0)
                  (store 0 (PutUint16 cmd) (repeat x00 (8 + length data))))))
    = serialize cmd 0 sid rid data).
  { unfold serialize, store, PutUint16.
    cbn [repeat Nat.add firstn skipn app length].
    destruct data as [|d data]; [reflexivity|].
    cbn [Nat.ltb Nat.leb length app firstn skipn Nat.add repeat].
    rewrite skipn_all2 by (rewrite repeat_length; lia).
    rewrite app_nil_r. reflexivity. }
  cbv zeta. rewrite Hbuf.
  unfold serialize, store, PutUint16.
  cbn [firstn skipn app length Nat.add]. reflexivity.
Qed.

(** For a replyID below 65535 the packet builder does what the
    specification says of it: the checksum field holds the checksum of the
    serialization with checksum zero and the current replyID, the replyID
    field and the returned next replyID are [(replyID + 1) mod 65535]. *)
Lemma createHeader_below (cmd sid rid : Z) (data : list byte) :
  is_u16 cmd -> is_u16 sid -> 0 <= rid < 65535 ->
  let '(buf, nextReplyID) := createHeader cmd sid rid data in
  Uint16 (slice 2 4 buf) = calculateChecksum (serialize cmd 0 sid rid data)
  /\ Uint16 (slice 6 8 buf) = (rid + 1) mod 65535
  /\ nextReplyID = (rid + 1) mod 65535.
Proof.
  intros Hcmd Hsid Hrid. rewrite createHeader_layout.
  rewrite nextReply_below by exact Hrid.
  pose proof (calculateChecksum_range (serialize cmd 0 sid rid data)) as Hck.
  pose proof (Z.mod_pos_bound (rid + 1) 65535 ltac:(lia)) as Hn.
  rewrite serialize_checksum_field, serialize_reply_field
    by (unfold is_u16; lia).
  repeat split.
Qed.

(** Starting at 65534, two successive increments give 0 and then 1. *)
Lemma createHeader_wraparound (cmd sid : Z) (data : list byte) :
  snd (createHeader cmd sid 65534 data) = 0
  /\ snd (createHeader cmd sid 0 data) = 1.
Proof.
  rewrite !createHeader_layout. split; reflexivity.
Qed.

(** C1.  At replyID 65535, a value of the [uint16] parameter, the sum
    [replyID + 1] has already wrapped to 0 in 16 bits when it is compared
    with 65535: the replyID field of the buffer and the returned next
    replyID are both 0, where [(replyID + 1) mod 65535] is 1. *)
Theorem createHeader_replyID_65535 :
  let '(buf, nextReplyID) := createHeader CMD_CONNECT 0 65535 [] in
  nextReplyID = 0
  /\ Uint16 (slice 6 8 buf) = 0
  /\ (65535 + 1) mod 65535 = 1
  /\ Uint16 (slice 2 4 buf)
     = calculateChecksum (serialize CMD_CONNECT 0 0 65535 []).
Proof.
  vm_compute. repeat split.
Qed.

(** ** Timestamps *)

Lemma digit_split (n a b : Z) :
  0 < n -> 0 <= a < n -> (a + n * b) mod n = a /\ (a + n * b) / n = b.
Proof.
  intros Hn Ha. split.
  - symmetry. apply (Z.mod_unique _ _ b); lia.
  - symmetry. apply (Z.div_unique _ _ _ a); lia.
Qed.



(** ** The auth key *)

Section BitReversal.

Variable key : Z.

Lemma land_bit (i : nat) :
  (Z.land key (Z.shiftl 1 (Z.of_nat i)) =? 0)
  = negb (Z.testbit key (Z.of_nat i)).
Proof.
  rewrite Z.shiftl_1_l.
  destruct (Z.testbit key (Z.of_nat i)) eqn:Hb; cbn [negb].
  - apply Z.eqb_neq. intros E.
    assert (Hc : Z.testbit (Z.land key (2 ^ Z.of_nat i)) (Z.of_nat i) = true).
    { rewrite Z.land_spec, Hb, Z.pow2_bits_true by lia. reflexivity. }
    rewrite E, Z.bits_0 in Hc. discriminate.
  - apply Z.eqb_eq, Z.bits_inj'. intros n Hn.
    rewrite Z.land_spec, Z.bits_0, Z.pow2_bits_eqb by lia.
    destruct (Z.eqb_spec (Z.of_nat i) n) as [<-|]; [rewrite Hb|];
      apply andb_false_r || reflexivity.
Qed.

Lemma lor_double_1 (k : Z) : 0 <= k -> Z.lor (2 * k) 1 = 2 * k + 1.
Proof.
  intros H. destruct k as [|p|p]; [reflexivity|reflexivity|lia].
Qed.

(** One pass of the reversal loop shifts the bits gathered so far up by one
    and puts bit [i] of the key below them, without overflow while fewer
    than 32 bits have been gathered. *)
Lemma reverseStep_spec (k : Z) (i : nat) :
  0 <= k < 2 ^ 31 ->
  reverseStep key k i
  = 2 * k + (if Z.testbit key (Z.of_nat i) then 1 else 0).
Proof.
  intros Hk. unfold reverseStep. rewrite land_bit, negb_involutive.
  rewrite Z.shiftl_mul_pow2 by lia. change (2 ^ 1) with 2.
  unfold u32. rewrite Z.mod_small by lia.
  rewrite (Z.mul_comm k 2).
  destruct (Z.testbit key (Z.of_nat i)).
  - apply lor_double_1. lia.
  - lia.
Qed.

Lemma specSum_shift (l : list nat) (a : Z) :
  fold_right
    (fun i acc => acc + if Z.testbit key (Z.of_nat i) then 2 ^ (31 - Z.of_nat i) else 0)
    a l
  = a + fold_right
    (fun i acc => acc + if Z.testbit key (Z.of_nat i) then 2 ^ (31 - Z.of_nat i) else 0)
    0 l.
Proof.
  induction l as [|i l IH]; cbn [fold_right]; [lia|].
  rewrite IH. lia.
Qed.

(** After [n] passes the loop holds the low [n] bits of the key, reversed;
    scaled to 32 bits this is the part of the specification's sum over the
    bits below [n]. *)
Lemma reverse_loop_invariant (n : nat) :
  (n <= 32)%nat ->
  let k := fold_left (reverseStep key) (seq 0 n) 0 in
  0 <= k < 2 ^ Z.of_nat n
  /\ k * 2 ^ (32 - Z.of_nat n)
     = fold_right
         (fun i acc =>
            acc + if Z.testbit key (Z.of_nat i) then 2 ^ (31 - Z.of_nat i) else 0)
         0 (seq 0 n).
Proof.
  induction n as [|n IH]; intros Hn; cbv zeta.
  - cbn. lia.
  - destruct (IH ltac:(lia)) as [Hk Hsum]. cbv zeta in Hk, Hsum.
    rewrite seq_S, fold_left_app, fold_right_app. cbn [fold_left fold_right Nat.add].
    set (k := fold_left (reverseStep key) (seq 0 n) 0) in *.
    assert (Hk31 : 0 <= k < 2 ^ 31).
    { split; [lia|]. apply Z.lt_le_trans with (2 ^ Z.of_nat n); [lia|].
      apply Z.pow_le_mono_r; lia. }
    rewrite reverseStep_spec by exact Hk31.
    rewrite specSum_shift, <- Hsum.
    replace (32 - Z.of_nat n) with (Z.succ (31 - Z.of_nat n)) by lia.
    replace (32 - Z.of_nat (S n)) with (31 - Z.of_nat n) by lia.
    rewrite Nat2Z.inj_succ, !Z.pow_succ_r by lia.
    split.
    + destruct (Z.testbit key (Z.of_nat n)); lia.
    + destruct (Z.testbit key (Z.of_nat n)); ring.
Qed.

Lemma reverse_loop_spec :
  fold_left (reverseStep key) (seq 0 32) 0 = specBitReverse32 key
  /\ 0 <= specBitReverse32 key < 2 ^ 32.
Proof.
  destruct (reverse_loop_invariant 32 ltac:(lia)) as [Hk Hsum].
  cbv zeta in Hk, Hsum.
  change (2 ^ (32 - Z.of_nat 32)) with 1 in Hsum. rewrite Z.mul_1_r in Hsum.
  unfold specBitReverse32. rewrite <- Hsum. split; [reflexivity|exact Hk].
Qed.

(** Bit [j] of the word the loop builds is bit [n - 1 - j] of the key. *)
Lemma reverse_loop_bits (n : nat) :
  (n <= 32)%nat ->
  forall j, 0 <= j < Z.of_nat n ->
    Z.testbit (fold_left (reverseStep key) (seq 0 n) 0) j
    = Z.testbit key (Z.of_nat n - 1 - j).
Proof.
  induction n as [|n IH]; intros Hn j Hj; [lia|].
  destruct (reverse_loop_invariant n ltac:(lia)) as [Hk _].
  cbv zeta in Hk.
  rewrite seq_S, fold_left_app. cbn [fold_left Nat.add].
  set (k := fold_left (reverseStep key) (seq 0 n) 0) in *.
  assert (Hk31 : 0 <= k < 2 ^ 31).
  { split; [lia|]. apply Z.lt_le_trans with (2 ^ Z.of_nat n); [lia|].
    apply Z.pow_le_mono_r; lia. }
  rewrite reverseStep_spec by exact Hk31.
  destruct (Z.eq_dec j 0) as [->|Hj0].
  - replace (Z.of_nat (S n) - 1 - 0) with (Z.of_nat n) by lia.
    destruct (Z.testbit key (Z.of_nat n)).
    + apply Z.testbit_odd_0.
    + rewrite Z.add_0_r. apply Z.testbit_even_0.
  - replace j with (Z.succ (j - 1)) by lia.
    replace (Z.of_nat (S n) - 1 - Z.succ (j - 1))
      with (Z.of_nat n - 1 - (j - 1)) by lia.
    rewrite <- (IH ltac:(lia) (j - 1) ltac:(lia)). fold k.
    destruct (Z.testbit key (Z.of_nat n)).
    + apply Z.testbit_odd_succ. lia.
    + rewrite Z.add_0_r. apply Z.testbit_even_succ. lia.
Qed.

End BitReversal.

(** The specification's reversed word is the mirror image of the low 32
    bits of the password. *)
Lemma specBitReverse32_bits (x j : Z) :
  0 <= j < 32 -> Z.testbit (specBitReverse32 x) j = Z.testbit x (31 - j).
Proof.
  intros Hj. destruct (reverse_loop_spec x) as [<- _].
  rewrite (reverse_loop_bits x 32 ltac:(lia) j ltac:(lia)).
  f_equal.
Qed.

(** Storing the word just read puts the same two bytes back. *)
Lemma PutUint16_Uint16 (a b : byte) : PutUint16 (Uint16 [a; b]) = [a; b].
Proof.
  unfold PutUint16, Uint16.
  pose proof (byte_val_range a) as Ha. pose proof (byte_val_range b) as Hb.
  rewrite Z.shiftr_div_pow2 by lia. change (2 ^ 8) with 256.
  destruct (digit_split 256 (byte_val a) (byte_val b) ltac:(lia) Ha)
    as [Hmod Hdiv].
  rewrite Hdiv, mk_byte_val.
  unfold mk_byte at 1. rewrite Hmod. fold (mk_byte (byte_val a)).
  unfold byte_val at 1. rewrite N2Z.id, Byte.of_to_N. reflexivity.
Qed.

(** C9.  [makeCommKey] returns the four bytes the specification derives:
    the 32 bits of the password reversed, the session id added, the sum
    laid out as a little-endian 32-bit word, XORed with "ZKSO", the two
    16-bit halves swapped, bytes 0, 1 and 3 XORed with 0x32 and byte 2 set
    to 0x32. *)
Theorem makeCommKey_matches_spec (password sessionID : Z) :
  is_u16 sessionID ->
  makeCommKey password sessionID = specCommKey password sessionID.
Proof.
  intros Hsid. unfold makeCommKey, specCommKey.
  destruct (reverse_loop_spec password) as [-> _].
  generalize (specBitReverse32 password). intros B.
  unfold u32.
  rewrite (Z.mod_small sessionID 4294967296) by (unfold is_u16 in Hsid; lia).
  change (2 ^ 32) with 4294967296.
  generalize ((B + sessionID) mod 4294967296). intros v.
  cbv zeta.
  unfold store, PutUint32, setByte, getByte, store.
  cbn [repeat firstn skipn app length Nat.add seq fold_left nth].
  unfold slice. cbn [skipn firstn Nat.sub].
  rewrite !PutUint16_Uint16.
  cbn [firstn skipn app length Nat.add nth].
  rewrite !Z.shiftr_div_pow2 by lia.
  reflexivity.
Qed.

Lemma makeCommKey_matches_spec_witness :
  makeCommKey 55 42 = specCommKey 55 42.
Proof.
  apply (makeCommKey_matches_spec 55 42). unfold is_u16. lia.
Defined.

(** The regression vector of the reference implementation. *)
Example makeCommKey_0_0 : makeCommKey 0 0 = [x61; x7d; x32; x79].
Proof. vm_compute. reflexivity. Qed.

Example specBitReverse32_low : specBitReverse32 1 = 2 ^ 31.
Proof. vm_compute. reflexivity. Qed.

Example specBitReverse32_mixed : specBitReverse32 0x80000006 = 0x60000001.
Proof. vm_compute. reflexivity. Qed.

(** ** TCP framing *)

Lemma extractTCPPacket_short (buf : list byte) :
  len buf < 8 -> extractTCPPacket buf = ([], buf, false).
Proof.
  intros H. unfold extractTCPPacket.
  destruct (Z.ltb_spec (len buf) 8); [reflexivity | lia].
Qed.

Lemma extractTCPPacket_mismatch (buf : list byte) :
  firstn 4 buf <> tcpMagic -> extractTCPPacket buf = ([], buf, false).
Proof.
  intros Hm. unfold extractTCPPacket.
  destruct (len buf <? 8); [reflexivity|].
  destruct (negb (Byte.eqb (nth 0 buf x00) x50)
            || negb (Byte.eqb (nth 1 buf x00) x50)
            || negb (Byte.eqb (nth 2 buf x00) x82)
            || negb (Byte.eqb (nth 3 buf x00) x7d)) eqn:E; [reflexivity|].
  exfalso. apply Hm.
  apply orb_false_elim in E as [E E3]. apply orb_false_elim in E as [E E2].
  apply orb_false_elim in E as [E0 E1].
  apply negb_false_iff, Byte.byte_dec_bl in E0, E1, E2, E3.
  destruct buf as [|a [|b [|c [|d buf]]]]; cbn [nth] in *; try discriminate.
  cbn [firstn]. unfold tcpMagic. congruence.
Qed.

(** What a complete frame at the head of the buffer yields. *)
Lemma extractTCPPacket_frame (payload rest : list byte) :
  len payload < 4294967296 ->
  extractTCPPacket (wrapTCP payload ++ rest) = (payload, rest, true).
Proof.
  intros Hlen.
  assert (Hw : wrapTCP payload = tcpMagic ++ PutUint32 (len payload) ++ payload).
  { unfold wrapTCP, store, tcpMagic, PutUint32.
    cbn [repeat Nat.add firstn skipn app length].
    rewrite skipn_all2 by (rewrite repeat_length; lia).
    rewrite app_nil_r. unfold u32.
    rewrite (Z.mod_small (len payload)) by (pose proof (len_nonneg payload); lia).
    reflexivity. }
  rewrite Hw. unfold extractTCPPacket.
  assert (Hl : len ((tcpMagic ++ PutUint32 (len payload) ++ payload) ++ rest)
               = 8 + len payload + len rest).
  { rewrite !len_app. change (len tcpMagic) with 4.
    change (len (PutUint32 (len payload))) with 4. lia. }
  rewrite Hl. pose proof (len_nonneg payload). pose proof (len_nonneg rest).
  destruct (Z.ltb_spec (8 + len payload + len rest) 8); [lia|].
  cbn [tcpMagic app nth Byte.eqb negb orb].
  assert (Hu : Uint32 (slice 4 8
                 (x50 :: x50 :: x82 :: x7d
                    :: (PutUint32 (len payload) ++ payload) ++ rest))
               = len payload).
  { unfold slice. cbn [skipn Nat.sub]. rewrite <- app_assoc.
    unfold PutUint32 at 1. cbn [app firstn]. 
    apply (Uint32_PutUint32 (len payload) []). lia. }
  change (Byte.eqb x50 x50) with true. change (Byte.eqb x82 x82) with true.
  change (Byte.eqb x7d x7d) with true. cbn [negb orb].
  rewrite Hu.
  destruct (Z.ltb_spec (8 + len payload + len rest) (8 + len payload)); [lia|].
  assert (Hn : Z.to_nat (8 + len payload) = (8 + length payload)%nat).
  { unfold len. lia. }
  rewrite Hn. unfold slice, slice_from, PutUint32.
  rewrite <- app_assoc. cbn [app skipn Nat.add Nat.sub].
  rewrite Nat.sub_0_r, firstn_app, firstn_all, Nat.sub_diag. cbn [firstn].
  rewrite app_nil_r, skipn_app, skipn_all, Nat.sub_diag. cbn [skipn app].
  destruct (Z.gtb_spec (8 + len payload + len rest) (8 + len payload)).
  - reflexivity.
  - assert (rest = []) as ->; [|reflexivity].
    destruct rest; [reflexivity|]. unfold len in *. cbn [length] in *. lia.
Qed.

(** ** Receiving over TCP: the loop needs no more passes than it is given *)

Lemma recvTCPLoop_step (fuel : nat) (z : ZKTeco) :
  recvTCPLoop (S fuel) z =
  match extractTCPPacket (tcpBuffer z) with
  | (payload, remainder, true) => (Ok payload, set_tcpBuffer remainder z)
  | (_, _, false) =>
      match connRead z with
      | (Ok bs, z1) => recvTCPLoop fuel (set_tcpBuffer (tcpBuffer z1 ++ bs) z1)
      | (Err e, z1) => (Err e, z1)
      | (Panic, z1) => (Panic, z1)
      | (Diverged, z1) => (Diverged, z1)
      end
  end.
Proof.
  cbn [recvTCPLoop]. unfold bind, get, modify, ret.
  destruct (extractTCPPacket (tcpBuffer z)) as [[payload remainder] [|]];
    [reflexivity|].
  destruct (connRead z) as [[bs| e | |] z1]; reflexivity.
Qed.

Lemma connRead_cases (z : ZKTeco) :
  (conn z = None /\ connRead z = (Panic, z))
  \/ (exists c, conn z = Some c /\ incoming c = []
                /\ connRead z = (Err (ErrNet NetTimeout), z))
  \/ (exists c bs rest, conn z = Some c /\ incoming c = ReadOk bs :: rest
        /\ connRead z
           = (Ok bs, set_conn (Some (mkConn rest (outgoing c) (writeErr c))) z))
  \/ (exists c e rest, conn z = Some c /\ incoming c = ReadErr e :: rest
        /\ connRead z
           = (Err (ErrNet e),
              set_conn (Some (mkConn rest (outgoing c) (writeErr c))) z)).
Proof.
  unfold connRead. destruct (conn z) as [c|] eqn:Ec; [|left; auto].
  destruct (incoming c) as [|[bs|e] rest] eqn:Ei.
  - right; left. exists c. auto.
  - right; right; left. exists c, bs, rest. auto.
  - right; right; right. exists c, e, rest. auto.
Qed.

(** Case analysis on what the next read does, rewriting [connRead z]. *)
Ltac read_cases z :=
  destruct (connRead_cases z)
    as [[?Ec ->]
       | [(?c & ?Ec & ?Ei & ->)
         | [(?c & ?bs & ?rest & ?Ec & ?Ei & ->)
           | (?c & ?e & ?rest & ?Ec & ?Ei & ->)]]].

Lemma recvTCPLoop_fuel (fuel : nat) :
  forall fuel' z, (pending z < fuel)%nat -> (pending z < fuel')%nat ->
    recvTCPLoop fuel z = recvTCPLoop fuel' z.
Proof.
  induction fuel as [|fuel IH]; intros fuel' z H H'; [lia|].
  destruct fuel' as [|fuel']; [lia|].
  rewrite !recvTCPLoop_step.
  destruct (extractTCPPacket (tcpBuffer z)) as [[payload remainder] [|]];
    [reflexivity|].
  read_cases z;
    try reflexivity.
  apply IH; unfold pending in *; rewrite Ec, Ei in *; cbn in *; lia.
Qed.

Lemma recvTCPLoop_returns (fuel : nat) :
  forall z, (pending z < fuel)%nat -> fst (recvTCPLoop fuel z) <> Diverged.
Proof.
  induction fuel as [|fuel IH]; intros z H; [lia|].
  rewrite recvTCPLoop_step.
  destruct (extractTCPPacket (tcpBuffer z)) as [[payload remainder] [|]];
    [discriminate|].
  read_cases z;
    try discriminate.
  apply IH. unfold pending in *. rewrite Ec, Ei in *. cbn in *. lia.
Qed.

(** [recvTCP] always comes back: with a frame, with the error of a read,
    or with the panic of a read on the nil connection. *)
Lemma recvTCP_returns (z : ZKTeco) : fst (recvTCP z) <> Diverged.
Proof.
  unfold recvTCP. apply recvTCPLoop_returns. lia.
Qed.

(** C3, as the code has it.  A buffer of at least eight bytes whose first
    four bytes are not the magic sequence is answered as "no complete frame
    yet", the buffer returned as it is, whatever length it declares and
    however many bytes are buffered; [recvTCP] then reads again and goes on
    with the bytes appended. *)
Theorem magic_mismatch_keeps_buffering (z : ZKTeco) (c : Conn)
    (bs : list byte) (rest : list read_result) :
  8 <= len (tcpBuffer z) ->
  firstn 4 (tcpBuffer z) <> tcpMagic ->
  conn z = Some c ->
  incoming c = ReadOk bs :: rest ->
  extractTCPPacket (tcpBuffer z) = ([], tcpBuffer z, false)
  /\ recvTCP z
     = recvTCP (set_tcpBuffer (tcpBuffer z ++ bs)
                  (set_conn (Some (mkConn rest (outgoing c) (writeErr c))) z)).
Proof.
  intros Hlen Hmagic Hc Hi.
  pose proof (extractTCPPacket_mismatch _ Hmagic) as He.
  split; [exact He|].
  unfold recvTCP at 1. rewrite recvTCPLoop_step, He.
  unfold connRead. rewrite Hc, Hi.
  apply recvTCPLoop_fuel; unfold pending; cbn [conn set_conn set_tcpBuffer incoming];
    [rewrite Hc, Hi; cbn [length]|]; lia.
Qed.

Lemma magic_mismatch_keeps_buffering_witness :
  extractTCPPacket desyncBuffer = ([], desyncBuffer, false)
  /\ recvTCP desyncClient
     = recvTCP (set_tcpBuffer (desyncBuffer ++ [x01])
                  (set_conn (Some (mkConn [] [] None)) desyncClient)).
Proof.
  apply (magic_mismatch_keeps_buffering desyncClient
           (mkConn [ReadOk [x01]] [] None) [x01] []).
  - vm_compute. discriminate.
  - vm_compute. discriminate.
  - reflexivity.
  - reflexivity.
Defined.

(** C3, as stated, fails.  With a wrong magic and a whole frame's worth of
    bytes buffered, extraction answers exactly as it does for an incomplete
    frame, and [recvTCP] reports nothing at that point: it takes the next
    read, appends it, and comes back only with the error of the socket. *)
Lemma magic_mismatch_not_fatal :
  8 <= len desyncBuffer
  /\ firstn 4 desyncBuffer <> tcpMagic
  /\ 8 + Uint32 (slice 4 8 desyncBuffer) <= len desyncBuffer
  /\ extractTCPPacket desyncBuffer = ([], desyncBuffer, false)
  /\ extractTCPPacket (firstn 7 desyncBuffer)
     = ([], firstn 7 desyncBuffer, false)
  /\ recvTCP desyncClient
     = (Err (ErrNet NetTimeout),
        mkZKTeco "tcp" (Some (mkConn [] [] None)) 0 0 []
          (desyncBuffer ++ [x01]))
  /\ ~ (exists e, recvTCP desyncClient = (Err e, desyncClient)).
Proof.
  repeat split; try (vm_compute; congruence).
  intros [e He]. vm_compute in He. discriminate.
Qed.

(** ** The transport leaves the session alone *)

Lemma sameSession_refl (z : ZKTeco) : sameSession z z.
Proof. repeat split. Qed.

Lemma sameSession_trans (z1 z2 z3 : ZKTeco) :
  sameSession z1 z2 -> sameSession z2 z3 -> sameSession z1 z3.
Proof.
  unfold sameSession. intros (?&?&?&?) (?&?&?&?). repeat split; congruence.
Qed.

Lemma sameSession_conn (c : option Conn) (z : ZKTeco) :
  sameSession z (set_conn c z).
Proof. repeat split. Qed.

Lemma sameSession_tcpBuffer (b : list byte) (z : ZKTeco) :
  sameSession z (set_tcpBuffer b z).
Proof. repeat split. Qed.

Create HintDb session.
#[local] Hint Resolve sameSession_refl sameSession_conn sameSession_tcpBuffer
  : session.

Lemma connRead_keeps : keepsSession connRead.
Proof.
  intros z r z'. read_cases z; intros H; inversion H; subst;
    auto with session.
Qed.

Lemma connWrite_keeps (toSend : list byte) : keepsSession (connWrite toSend).
Proof.
  intros z r z' H. unfold connWrite in H.
  destruct (conn z) as [c|]; [destruct (writeErr c)|]; inversion H; subst;
    auto with session.
Qed.

Lemma sendData_keeps (data : list byte) : keepsSession (sendData data).
Proof.
  intros z r z' H. unfold sendData, bind, get, fail in H.
  destruct (conn z) as [c|] eqn:Ec.
  - eapply connWrite_keeps. exact H.
  - inversion H; subst. apply sameSession_refl.
Qed.

Lemma recvUDP_eq (z : ZKTeco) : recvUDP z = connRead z.
Proof.
  unfold recvUDP, bind, ret. destruct (connRead z) as [[]]; reflexivity.
Qed.

Lemma recvTCPLoop_keeps (fuel : nat) : keepsSession (recvTCPLoop fuel).
Proof.
  induction fuel as [|fuel IH]; intros z r z' H.
  - inversion H; subst. apply sameSession_refl.
  - rewrite recvTCPLoop_step in H.
    destruct (extractTCPPacket (tcpBuffer z)) as [[payload remainder] [|]].
    + inversion H; subst. apply sameSession_tcpBuffer.
    + destruct (connRead z) as [[bs|e| |] z1] eqn:Er;
        pose proof (connRead_keeps _ _ _ Er) as Hs;
        try (inversion H; subst; exact Hs).
      apply IH in H. eapply sameSession_trans; [exact Hs|].
      eapply sameSession_trans; [apply sameSession_tcpBuffer | exact H].
Qed.

Lemma recvData_keeps : keepsSession recvData.
Proof.
  intros z r z' H. unfold recvData, bind, get, fail in H.
  destruct (conn z) as [c|].
  - destruct (IsTCP z).
    + eapply recvTCPLoop_keeps. exact H.
    + rewrite recvUDP_eq in H. eapply connRead_keeps. exact H.
  - inversion H; subst. apply sameSession_refl.
Qed.

(** ** The exchange *)

(** [command] up to the point where the response is on record. *)
Lemma command_unfold (cmd : Z) (data : list byte) (cmdType : string)
    (z : ZKTeco) :
  command cmd data cmdType z =
  let hdr := createHeader cmd (sessionID (primed z)) (replyID (primed z)) data in
  match sendData (fst hdr) (primed z) with
  | (Ok _, z1) =>
      match recvData z1 with
      | (Ok resp, z2) =>
          let z3 := set_lastData resp (set_replyID (snd hdr) z2) in
          if String.eqb cmdType "data" then (Ok resp, z3)
          else if negb (sessionID z3 =? 0) && (len resp >=? 6) then
            if negb (Uint16 (slice 4 6 resp) =? sessionID z3)
            then (Err (ErrSessionMismatch (sessionID z3)
                         (Uint16 (slice 4 6 resp))), z3)
            else (Ok resp, z3)
          else (Ok resp, z3)
      | (Err e, z2) => (Err e, z2)
      | (Panic, z2) => (Panic, z2)
      | (Diverged, z2) => (Diverged, z2)
      end
  | (Err e, z1) => (Err e, z1)
  | (Panic, z1) => (Panic, z1)
  | (Diverged, z1) => (Diverged, z1)
  end.
Proof.
  unfold command, primed, bind, get, modify, ret, fail.
  destruct (len (lastData z) >=? 8); cbv zeta;
    match goal with
    | |- context [createHeader ?a ?b ?c ?d] =>
        destruct (createHeader a b c d) as [pkt nextReplyID]
    end; cbn [fst snd];
    match goal with
    | |- context [sendData ?p ?s] => destruct (sendData p s) as [[[]|e| |] z1]
    end; try reflexivity;
    destruct (recvData z1) as [[resp|e| |] z2]; try reflexivity;
    destruct (String.eqb cmdType "data"); try reflexivity;
    match goal with
    | |- context [negb (?s =? 0) && ?l] => destruct (negb (s =? 0) && l)
    end; try reflexivity;
    match goal with
    | |- context [negb (?a =? ?b)] => destruct (negb (a =? b))
    end; reflexivity.
Qed.

Lemma primed_session (z : ZKTeco) :
  sessionID (primed z) = sessionID z /\ protocol (primed z) = protocol z
  /\ conn (primed z) = conn z.
Proof.
  unfold primed. destruct (len (lastData z) >=? 8); repeat split.
Qed.

(** C10.  When a non-bulk exchange of a client with a non-zero session id
    receives a response of at least six bytes whose session field differs,
    [command] returns the session-mismatch error, and the client it leaves
    behind has the replyID advanced to the next replyID and the mismatched
    response on record as the last response. *)
Theorem command_mismatch_not_atomic (z z1 z2 : ZKTeco) (cmd : Z)
    (data resp : list byte) (cmdType : string) :
  let hdr := createHeader cmd (sessionID (primed z)) (replyID (primed z)) data in
  cmdType <> "data"%string ->
  sessionID z <> 0 ->
  sendData (fst hdr) (primed z) = (Ok tt, z1) ->
  recvData z1 = (Ok resp, z2) ->
  6 <= len resp ->
  Uint16 (slice 4 6 resp) <> sessionID z ->
  exists z',
    command cmd data cmdType z
    = (Err (ErrSessionMismatch (sessionID z) (Uint16 (slice 4 6 resp))), z')
    /\ replyID z' = snd hdr
    /\ lastData z' = resp
    /\ z' = set_lastData resp (set_replyID (snd hdr) z2).
Proof.
  intros hdr Htype Hsid Hsend Hrecv Hlen Hdiff.
  exists (set_lastData resp (set_replyID (snd hdr) z2)).
  rewrite command_unfold. fold hdr. cbv zeta. rewrite Hsend, Hrecv.
  apply String.eqb_neq in Htype. rewrite Htype.
  destruct (sendData_keeps _ _ _ _ Hsend) as (_ & Hs1 & _).
  destruct (recvData_keeps _ _ _ Hrecv) as (_ & Hs2 & _).
  destruct (primed_session z) as (Hs0 & _).
  cbn [sessionID set_lastData set_replyID].
  assert (Hs : sessionID z2 = sessionID z) by congruence.
  rewrite Hs.
  destruct (Z.eqb_spec (sessionID z) 0) as [|_]; [contradiction|].
  destruct (Z.geb_spec (len resp) 6) as [_|]; [|lia].
  destruct (Z.eqb_spec (Uint16 (slice 4 6 resp)) (sessionID z)) as [|_];
    [contradiction|].
  cbn [negb andb]. repeat split.
Qed.

Lemma command_mismatch_not_atomic_witness :
  exists z',
    command CMD_CONNECT [] "general" sessionClient
    = (Err (ErrSessionMismatch 42 7), z')
    /\ replyID z' = 0
    /\ lastData z' = strayReply
    /\ z' = set_lastData strayReply
              (set_replyID 0
                 (mkZKTeco "udp"
                    (Some (mkConn []
                             [fst (createHeader CMD_CONNECT 42 65534 [])] None))
                    42 65534 [] [])).
Proof.
  apply (command_mismatch_not_atomic sessionClient
           (mkZKTeco "udp"
              (Some (mkConn [ReadOk strayReply]
                       [fst (createHeader CMD_CONNECT 42 65534 [])] None))
              42 65534 [] [])
           (mkZKTeco "udp"
              (Some (mkConn []
                       [fst (createHeader CMD_CONNECT 42 65534 [])] None))
              42 65534 [] [])
           CMD_CONNECT [] strayReply "general").
  - discriminate.
  - vm_compute. discriminate.
  - reflexivity.
  - reflexivity.
  - vm_compute. discriminate.
  - vm_compute. discriminate.
Defined.

(** ** Bulk data: the dispatch on the immediate response *)

(** C5.  Once the exchange of [commandData] has returned a response that
    parses, its command code decides: prepare-data hands the response to
    [recvLargeData]; ack-data and ack-ok return the response itself;
    any other code is the unexpected-response error carrying that code. *)
Theorem commandData_dispatch (z z' : ZKTeco) (cmd : Z)
    (data resp : list byte) :
  command cmd data "data" z = (Ok resp, z') ->
  8 <= len resp ->
  let code := Uint16 (slice 0 2 resp) in
  (code = CMD_PREPARE_DATA ->
     commandData cmd data z = recvLargeData resp z')
  /\ (code = CMD_ACK_DATA \/ code = CMD_ACK_OK ->
        commandData cmd data z = (Ok resp, z'))
  /\ (code <> CMD_PREPARE_DATA -> code <> CMD_ACK_DATA -> code <> CMD_ACK_OK ->
        commandData cmd data z = (Err (ErrUnexpectedResponse code), z')).
Proof.
  intros Hcmd Hlen code.
  unfold commandData, bind. rewrite Hcmd, (parsePacket_long resp Hlen).
  cbn [Command]. fold code. unfold ret, fail.
  split; [|split].
  - intros ->. reflexivity.
  - intros [-> | ->]; reflexivity.
  - intros H1 H2 H3.
    destruct (Z.eqb_spec code CMD_PREPARE_DATA); [contradiction|].
    destruct (Z.eqb_spec code CMD_ACK_DATA); [contradiction|].
    destruct (Z.eqb_spec code CMD_ACK_OK); [contradiction|].
    reflexivity.
Qed.

Lemma commandData_dispatch_witness :
  commandData 13 [] smallClient
  = (Ok smallReply,
     mkZKTeco "udp"
       (Some (mkConn [] [fst (createHeader 13 42 65534 [])] None))
       42 0 smallReply []).
Proof.
  refine (proj1 (proj2 (commandData_dispatch smallClient _ 13 [] smallReply
                          _ _)) _).
  - reflexivity.
  - vm_compute. discriminate.
  - left. reflexivity.
Defined.

(** ** The event stream *)

Lemma acceptFrame_Some (eventMask : Z) (payload : list byte) (t : Z) :
  acceptFrame eventMask payload = Some t
  <-> 6 <= len payload
      /\ Uint16 (slice 0 2 payload) = CMD_REG_EVENT
      /\ t = Uint16 (slice 4 6 payload)
      /\ Z.land t eventMask <> 0.
Proof.
  unfold acceptFrame.
  destruct (Z.ltb_spec (len payload) 4);
    [split; [discriminate | lia]|].
  destruct (Z.eqb_spec (Uint16 (slice 0 2 payload)) CMD_REG_EVENT);
    cbn [negb]; [|split; [discriminate | tauto]].
  destruct (Z.ltb_spec (len payload) 6);
    [split; [discriminate | lia]|].
  destruct (Z.eqb_spec (Z.land (Uint16 (slice 4 6 payload)) eventMask) 0).
  - split; [discriminate|]. intros (_ & _ & -> & Hn). contradiction.
  - split.
    + intros E. inversion E; subst. auto.
    + intros (_ & _ & -> & _). reflexivity.
Qed.

Lemma acceptFrame_None (eventMask : Z) (payload : list byte) :
  acceptFrame eventMask payload = None
  <-> len payload < 6
      \/ Uint16 (slice 0 2 payload) <> CMD_REG_EVENT
      \/ Z.land (Uint16 (slice 4 6 payload)) eventMask = 0.
Proof.
  destruct (acceptFrame eventMask payload) as [t|] eqn:E.
  - apply acceptFrame_Some in E as (H1 & H2 & -> & H4).
    split; [discriminate | lia].
  - split; [intros _ | reflexivity].
    destruct (Z.lt_ge_cases (len payload) 6); [auto|].
    destruct (Z.eq_dec (Uint16 (slice 0 2 payload)) CMD_REG_EVENT); [|auto].
    destruct (Z.eq_dec (Z.land (Uint16 (slice 4 6 payload)) eventMask) 0);
      [auto|].
    assert (acceptFrame eventMask payload
            = Some (Uint16 (slice 4 6 payload))) as E'
      by (apply acceptFrame_Some; auto).
    congruence.
Qed.

(** One pass of the loop on a frame: it is logged, handed to the handler or
    not, and the loop goes on either way. *)
Lemma pollEvents_frame (clock : list bool) (eventMask : Z) (log : pollLog)
    (z z1 : ZKTeco) (payload : list byte) :
  pollReceive z = (Ok payload, z1) ->
  pollEvents (false :: clock) eventMask log z
  = pollEvents clock eventMask
      (mkLog (frames log ++ [payload])
             (calls log ++ delivered eventMask payload)) z1.
Proof.
  unfold pollReceive. intros H. cbn [pollEvents]. rewrite H.
  unfold delivered, logCall, logFrame.
  destruct (acceptFrame eventMask payload); cbn [frames calls].
  - reflexivity.
  - rewrite app_nil_r. reflexivity.
Qed.

(** Every call the loop makes is the delivery of a frame it received, in
    the order of receipt. *)
Lemma pollEvents_log (clock : list bool) (eventMask : Z) :
  forall log z,
    let '(_, log', _) := pollEvents clock eventMask log z in
    exists new,
      frames log' = frames log ++ new
      /\ calls log' = calls log ++ flat_map (delivered eventMask) new.
Proof.
  induction clock as [|expired clock IH]; intros log z.
  - cbn [pollEvents]. exists []. rewrite !app_nil_r. auto.
  - destruct expired.
    + cbn [pollEvents]. exists []. rewrite !app_nil_r. auto.
    + destruct (pollReceive z) as [[payload|e| |] z1] eqn:Er.
      * rewrite (pollEvents_frame _ _ _ _ _ _ Er).
        specialize (IH (mkLog (frames log ++ [payload])
                          (calls log ++ delivered eventMask payload)) z1).
        destruct (pollEvents clock eventMask _ z1) as [[r log'] z'].
        destruct IH as (new & Hf & Hc). cbn [frames calls] in Hf, Hc.
        exists (payload :: new). cbn [flat_map].
        rewrite Hf, Hc, <- !app_assoc. auto.
      * unfold pollReceive in Er. cbn [pollEvents]. rewrite Er.
        destruct (timedOut e).
        -- apply IH.
        -- exists []. rewrite !app_nil_r. auto.
      * unfold pollReceive in Er. cbn [pollEvents]. rewrite Er.
        exists []. rewrite !app_nil_r. auto.
      * unfold pollReceive in Er. cbn [pollEvents]. rewrite Er.
        exists []. rewrite !app_nil_r. auto.
Qed.

Lemma GetRealTimeEvents_log (clock : list bool) (eventMask : Z) (z : ZKTeco) :
  let '(_, log, _) := GetRealTimeEvents clock eventMask z in
  calls log = flat_map (delivered eventMask) (frames log).
Proof.
  unfold GetRealTimeEvents.
  destruct (wrapErr ErrRegisterEvents _ z) as [[resp|e| |] z1];
    try reflexivity.
  destruct (parsePacket resp) as [pkt|e| |]; try reflexivity.
  destruct (negb (Command pkt =? CMD_ACK_OK)); [reflexivity|].
  pose proof (pollEvents_log clock eventMask (mkLog [] []) z1) as H.
  destruct (pollEvents clock eventMask (mkLog [] []) z1) as [[r log] z'].
  destruct H as (new & Hf & Hc). cbn [frames calls app] in Hf, Hc.
  congruence.
Qed.

(** C6.  In every run of [GetRealTimeEvents] the handler is called exactly
    on the received frames of at least six bytes whose command field is
    reg-event and whose event type meets the mask, in the order they came;
    a frame that fails one of the three conditions gives rise to no call,
    and the loop goes on to its next pass. *)
Theorem event_filtering (clock : list bool) (eventMask : Z) (z : ZKTeco) :
  let log := snd (fst (GetRealTimeEvents clock eventMask z)) in
  calls log = flat_map (delivered eventMask) (frames log)
  /\ (forall c, In c (calls log) ->
        In (callPayload c) (frames log)
        /\ 6 <= len (callPayload c)
        /\ Uint16 (slice 0 2 (callPayload c)) = CMD_REG_EVENT
        /\ callEventType c = Uint16 (slice 4 6 (callPayload c))
        /\ Z.land (callEventType c) eventMask <> 0)
  /\ (forall f,
        len f < 6 \/ Uint16 (slice 0 2 f) <> CMD_REG_EVENT
        \/ Z.land (Uint16 (slice 4 6 f)) eventMask = 0 ->
        delivered eventMask f = []
        /\ (forall c, In c (calls log) -> callPayload c <> f)
        /\ (forall clock' log' s s1,
              pollReceive s = (Ok f, s1) ->
              pollEvents (false :: clock') eventMask log' s
              = pollEvents clock' eventMask (logFrame f log') s1)).
Proof.
  intros log.
  pose proof (GetRealTimeEvents_log clock eventMask z) as Hlog.
  destruct (GetRealTimeEvents clock eventMask z) as [[r l] z'].
  cbn [fst snd] in log. subst log.
  assert (Hcalls : forall c, In c (calls l) ->
            In (callPayload c) (frames l)
            /\ acceptFrame eventMask (callPayload c) = Some (callEventType c)).
  { intros c Hc. rewrite Hlog in Hc. apply in_flat_map in Hc as (f & Hf & Hd).
    unfold delivered in Hd.
    destruct (acceptFrame eventMask f) as [t|] eqn:E; [|contradiction].
    destruct Hd as [<-|[]]. cbn [callPayload callEventType]. auto. }
  split; [exact Hlog|]. split.
  - intros c Hc. destruct (Hcalls c Hc) as [Hin Hacc].
    apply acceptFrame_Some in Hacc as (H1 & H2 & H3 & H4). auto.
  - intros f Hf. apply acceptFrame_None in Hf.
    split; [unfold delivered; rewrite Hf; reflexivity|]. split.
    + intros c Hc <-. destruct (Hcalls c Hc) as [_ Hacc]. congruence.
    + intros clock' log' s s1 Hr.
      rewrite (pollEvents_frame _ _ _ _ _ _ Hr).
      unfold delivered. rewrite Hf, app_nil_r. reflexivity.
Qed.

Lemma event_filtering_witness :
  delivered 1 eventUnlock = []
  /\ pollEvents [false; true] 1 (mkLog [] [])
       (mkZKTeco "udp" (Some (mkConn [ReadOk eventUnlock] [] None)) 42 0 [] [])
     = pollEvents [true] 1 (logFrame eventUnlock (mkLog [] []))
         (mkZKTeco "udp" (Some (mkConn [] [] None)) 42 0 [] []).
Proof.
  destruct (event_filtering [false; false; false; true] 1 eventClient)
    as (_ & _ & H).
  destruct (H eventUnlock) as (Hd & _ & Hstep).
  - right. right. vm_compute. reflexivity.
  - split; [exact Hd|]. apply Hstep. reflexivity.
Defined.

(** The run of the subscription above: three frames received, one call. *)
Example eventClient_run :
  GetRealTimeEvents [false; false; false; true] 1 eventClient
  = (Ok tt,
     mkLog [eventAck; eventUnlock; eventAttendance]
           [mkCall eventAttendance 1],
     mkZKTeco "udp"
       (Some (mkConn []
                [fst (createHeader CMD_REG_EVENT 42 65534 (PutUint32 1))]
                None))
       42 0 eventAck []).
Proof. vm_compute. reflexivity. Qed.

(** ** Bulk data: the chunk receiver *)

Lemma readNextLoop_step (left : nat) (z : ZKTeco) :
  readNextLoop (S left) z =
  match extractTCPPacket (tcpBuffer z) with
  | (payload, remainder, true) => (Ok payload, set_tcpBuffer remainder z)
  | (_, _, false) =>
      match connRead z with
      | (Ok bs, z1) => readNextLoop left (set_tcpBuffer (tcpBuffer z1 ++ bs) z1)
      | (Err e, z1) => (Err e, z1)
      | (Panic, z1) => (Panic, z1)
      | (Diverged, z1) => (Diverged, z1)
      end
  end.
Proof.
  cbn [readNextLoop]. unfold bind, get, modify, ret.
  destruct (extractTCPPacket (tcpBuffer z)) as [[payload remainder] [|]];
    [reflexivity|].
  destruct (connRead z) as [[bs| e | |] z1]; reflexivity.
Qed.

(** A frame taken off the buffer leaves the buffer shorter. *)
Lemma extractTCPPacket_shrinks (buf payload remainder : list byte) :
  extractTCPPacket buf = (payload, remainder, true) ->
  (length remainder < length buf)%nat.
Proof.
  unfold extractTCPPacket.
  destruct (Z.ltb_spec (len buf) 8) as [|H8]; [discriminate|].
  destruct (_ || _); [discriminate|].
  assert (Hu : 0 <= Uint32 (slice 4 8 buf)).
  { unfold Uint32. destruct (slice 4 8 buf) as [|b0 [|b1 [|b2 [|b3 l]]]]; try lia.
    pose proof (byte_val_range b0). pose proof (byte_val_range b1).
    pose proof (byte_val_range b2). pose proof (byte_val_range b3). lia. }
  remember (8 + Uint32 (slice 4 8 buf)) as totalLen eqn:Et.
  destruct (Z.ltb_spec (len buf) totalLen); [discriminate|].
  intros E. injection E as _ Hr. subst remainder. unfold len in *.
  destruct (Z.gtb_spec (Z.of_nat (length buf)) totalLen).
  - unfold slice_from. rewrite length_skipn. lia.
  - cbn [length]. lia.
Qed.

Lemma connRead_backlog (z z1 : ZKTeco) (bs : list byte) :
  connRead z = (Ok bs, z1) ->
  tcpBuffer z1 = tcpBuffer z
  /\ (backlog z1 + S (length bs) = backlog z)%nat.
Proof.
  read_cases z; intros H; inversion H; subst.
  unfold backlog. cbn [tcpBuffer set_conn conn incoming]. rewrite Ec, Ei.
  unfold list_sum. cbn [map fold_right readSize]. split; [reflexivity | lia].
Qed.

Lemma backlog_append (z : ZKTeco) (bs : list byte) :
  backlog (set_tcpBuffer (tcpBuffer z ++ bs) z) = (backlog z + length bs)%nat.
Proof.
  unfold backlog. cbn [tcpBuffer set_tcpBuffer conn]. rewrite length_app. lia.
Qed.

Lemma readNextLoop_backlog (left : nat) :
  forall z z1 chunk,
    readNextLoop left z = (Ok chunk, z1) -> (backlog z1 < backlog z)%nat.
Proof.
  induction left as [|left IH]; intros z z1 chunk H; [discriminate|].
  rewrite readNextLoop_step in H.
  destruct (extractTCPPacket (tcpBuffer z)) as [[payload remainder] [|]] eqn:Ex.
  - inversion H; subst. apply extractTCPPacket_shrinks in Ex.
    unfold backlog. cbn [tcpBuffer set_tcpBuffer conn]. lia.
  - destruct (connRead z) as [[bs|e| |] z2] eqn:Er; try discriminate.
    apply connRead_backlog in Er as [_ Hb].
    apply IH in H. rewrite backlog_append in H. lia.
Qed.

(** Every chunk that is read takes something off the backlog. *)
Lemma readChunk_backlog (z z1 : ZKTeco) (chunk : list byte) :
  readChunk z = (Ok chunk, z1) -> (backlog z1 < backlog z)%nat.
Proof.
  unfold readChunk, bind, get. destruct (IsTCP z).
  - apply readNextLoop_backlog.
  - intros H. apply connRead_backlog in H. lia.
Qed.

Lemma readNextLoop_returns (left : nat) :
  forall z, fst (readNextLoop left z) <> Diverged.
Proof.
  induction left as [|left IH]; intros z; [discriminate|].
  rewrite readNextLoop_step.
  destruct (extractTCPPacket (tcpBuffer z)) as [[payload remainder] [|]];
    [discriminate|].
  read_cases z;
    try discriminate.
  apply IH.
Qed.

Lemma connRead_returns (z : ZKTeco) : fst (connRead z) <> Diverged.
Proof.
  read_cases z;
    discriminate.
Qed.

Lemma readChunk_returns (z : ZKTeco) : fst (readChunk z) <> Diverged.
Proof.
  unfold readChunk, bind, get. destruct (IsTCP z).
  - apply readNextLoop_returns.
  - apply connRead_returns.
Qed.

Lemma recvData_returns (z : ZKTeco) : fst (recvData z) <> Diverged.
Proof.
  unfold recvData, bind, get, fail. destruct (conn z); [|discriminate].
  destruct (IsTCP z).
  - apply recvTCP_returns.
  - rewrite recvUDP_eq. apply connRead_returns.
Qed.

Lemma recvChunks_done (fuel : nat) (totalSize : Z) (allData : list byte)
    (received : Z) (first : bool) (z : ZKTeco) :
  totalSize <= received ->
  recvChunks fuel totalSize allData received first z = (Ok allData, z).
Proof.
  intros H. destruct fuel; cbn [recvChunks];
    destruct (Z.ltb_spec received totalSize); try lia; reflexivity.
Qed.

Lemma recvChunks_more (fuel : nat) (totalSize : Z) (allData : list byte)
    (received : Z) (first : bool) (z z1 : ZKTeco) (chunk : list byte) :
  received < totalSize ->
  readChunk z = (Ok chunk, z1) ->
  recvChunks (S fuel) totalSize allData received first z
  = recvChunks fuel totalSize
      (allData ++ (if first then chunk else nextKeep chunk))
      (received + (if first then firstCount chunk else nextCount chunk))
      false z1.
Proof.
  intros Hlt Hr. cbn [recvChunks].
  destruct (Z.ltb_spec received totalSize); [|lia].
  unfold bind, wrapErr. rewrite Hr.
  unfold firstCount, nextKeep, nextCount.
  destruct first; destruct (len chunk >? 8); rewrite ?Z.add_0_r; reflexivity.
Qed.

Lemma recvChunks_fail (fuel : nat) (totalSize : Z) (allData : list byte)
    (received : Z) (first : bool) (z z1 : ZKTeco) (e : error) :
  received < totalSize ->
  readChunk z = (Err e, z1) ->
  recvChunks (S fuel) totalSize allData received first z
  = (Err (ErrReceiveChunk e), z1).
Proof.
  intros Hlt Hr. cbn [recvChunks].
  destruct (Z.ltb_spec received totalSize); [|lia].
  unfold bind, wrapErr. rewrite Hr. reflexivity.
Qed.

(** The loop of [recvLargeData] comes back within the passes it is given. *)
Lemma recvChunks_returns (fuel : nat) :
  forall totalSize allData received first z,
    (backlog z < fuel)%nat ->
    fst (recvChunks fuel totalSize allData received first z) <> Diverged.
Proof.
  induction fuel as [|fuel IH]; intros totalSize allData received first z Hb;
    [lia|].
  destruct (Z.lt_ge_cases received totalSize) as [Hlt|Hge].
  - destruct (readChunk z) as [[chunk|e| |] z1] eqn:Er.
    + rewrite (recvChunks_more _ _ _ _ _ _ _ _ Hlt Er).
      apply IH. apply readChunk_backlog in Er. lia.
    + rewrite (recvChunks_fail _ _ _ _ _ _ _ _ Hlt Er). discriminate.
    + cbn [recvChunks]. destruct (Z.ltb_spec received totalSize); [|lia].
      unfold bind, wrapErr. rewrite Er. discriminate.
    + pose proof (readChunk_returns z) as Hn. rewrite Er in Hn.
      contradiction Hn. reflexivity.
  - rewrite recvChunks_done by exact Hge. discriminate.
Qed.

Lemma recvLargeData_returns (prepareResp : list byte) (z : ZKTeco) :
  fst (recvLargeData prepareResp z) <> Diverged.
Proof.
  unfold recvLargeData.
  destruct (len prepareResp <? 12); [discriminate|].
  destruct (Uint32 (slice 8 12 prepareResp) <=? 0); [discriminate|].
  unfold bind at 1. unfold get. unfold bind at 1.
  pose proof (recvChunks_returns (S (backlog z))
                (Uint32 (slice 8 12 prepareResp)) [] 0 true z ltac:(lia)) as H.
  destruct (recvChunks _ _ _ _ _ z) as [[allData|e| |] z1];
    try discriminate; [|contradiction H; reflexivity].
  unfold bind, wrapErr, modify, ret.
  pose proof (recvData_returns z1) as H1.
  destruct (recvData z1) as [[finalResp|e| |] z2]; try discriminate.
  contradiction H1. reflexivity.
Qed.

Lemma firstCount_nonneg (c : list byte) : 0 <= firstCount c.
Proof. unfold firstCount. destruct (Z.gtb_spec (len c) 8); lia. Qed.

Lemma nextCount_nonneg (c : list byte) : 0 <= nextCount c.
Proof.
  unfold nextCount. pose proof (len_nonneg c).
  destruct (Z.gtb_spec (len c) 8); lia.
Qed.

Lemma counted_nonneg (chunks : list (list byte)) :
  forall first, 0 <= counted first chunks.
Proof.
  induction chunks as [|c cs IH]; intros first; cbn [counted]; [lia|].
  pose proof (IH false). pose proof (firstCount_nonneg c).
  pose proof (nextCount_nonneg c). destruct first; lia.
Qed.

Lemma takeChunks_S (n : nat) (z z' : ZKTeco) (chunks : list (list byte)) :
  takeChunks (S n) z = Some (chunks, z') ->
  exists c cs z1,
    chunks = c :: cs /\ readChunk z = (Ok c, z1)
    /\ takeChunks n z1 = Some (cs, z').
Proof.
  cbn [takeChunks].
  destruct (readChunk z) as [[c|e| |] z1]; try discriminate.
  destruct (takeChunks n z1) as [[cs z2]|] eqn:Et; try discriminate.
  intros E. inversion E; subst. exists c, cs, z1. auto.
Qed.

Lemma takeChunks_backlog (n : nat) :
  forall z z' chunks,
    takeChunks n z = Some (chunks, z') ->
    length chunks = n /\ (backlog z' + n <= backlog z)%nat.
Proof.
  induction n as [|n IH]; intros z z' chunks H.
  - inversion H; subst. cbn [length]. lia.
  - apply takeChunks_S in H as (c & cs & z1 & -> & Hr & Ht).
    apply IH in Ht as [Hl Hb]. apply readChunk_backlog in Hr.
    cbn [length]. lia.
Qed.

(** The loop over the chunks the transport delivers: while the count is
    below the total it takes the next chunk; the chunk that brings the
    count to the total is the last it takes. *)
Lemma recvChunks_run (chunks : list (list byte)) :
  forall fuel totalSize allData received first z z' lastc,
    takeChunks (S (length chunks)) z = Some (chunks ++ [lastc], z') ->
    (length chunks < fuel)%nat ->
    received + counted first chunks < totalSize ->
    totalSize <= received + counted first (chunks ++ [lastc]) ->
    recvChunks fuel totalSize allData received first z
    = (Ok (allData ++ gathered first (chunks ++ [lastc])), z').
Proof.
  induction chunks as [|c cs IH];
    intros fuel totalSize allData received first z z' lastc Ht Hf Hlt Hge;
    (destruct fuel as [|fuel]; [cbn [length] in Hf; lia|]);
    apply takeChunks_S in Ht as (c' & cs' & z1 & Heq & Hr & Ht).
  - cbn [app] in Heq. inversion Heq; subst c' cs'.
    cbn [takeChunks] in Ht. inversion Ht; subst z1.
    cbn [counted app] in Hlt, Hge.
    assert (Hin : received < totalSize) by lia.
    rewrite (recvChunks_more _ _ _ _ _ _ _ _ Hin Hr).
    cbn [app gathered]. rewrite app_nil_r.
    apply recvChunks_done. lia.
  - cbn [app] in Heq. inversion Heq; subst c' cs'.
    cbn [counted app length] in Hlt, Hge, Hf.
    pose proof (counted_nonneg cs false).
    pose proof (firstCount_nonneg c). pose proof (nextCount_nonneg c).
    assert (Hin : received < totalSize) by (destruct first; lia).
    rewrite (recvChunks_more _ _ _ _ _ _ _ _ Hin Hr).
    cbn [app gathered]. rewrite app_assoc.
    apply IH; try assumption; lia.
Qed.

(** C4, as the code has it.  With a positive advertised total: the first
    chunk is appended whole and counted beyond its first eight bytes; a
    later chunk of more than eight bytes is appended and counted without
    its first eight bytes, a later chunk of at most eight bytes is appended
    and counted whole; the chunk that brings the count to the total is the
    last one read; then exactly one more frame is received, kept as the
    last response, and its failure is the failure of the transfer.  With
    an advertised total of zero the result is empty and nothing is read. *)
Theorem recvLargeData_assembles (prepareResp : list byte) (z : ZKTeco) :
  12 <= len prepareResp ->
  let totalSize := Uint32 (slice 8 12 prepareResp) in
  (totalSize = 0 -> recvLargeData prepareResp z = (Ok [], z))
  /\ (forall chunks lastc z1,
        takeChunks (S (length chunks)) z = Some (chunks ++ [lastc], z1) ->
        counted true chunks < totalSize ->
        totalSize <= counted true (chunks ++ [lastc]) ->
        recvLargeData prepareResp z
        = match recvData z1 with
          | (Ok finalResp, z2) =>
              (Ok (gathered true (chunks ++ [lastc])),
               set_lastData finalResp z2)
          | (Err e, z2) => (Err (ErrFinalAck e), z2)
          | (Panic, z2) => (Panic, z2)
          | (Diverged, z2) => (Diverged, z2)
          end).
Proof.
  intros Hlen totalSize. unfold recvLargeData. fold totalSize.
  destruct (Z.ltb_spec (len prepareResp) 12); [lia|]. split.
  - intros ->. reflexivity.
  - intros chunks lastc z1 Ht Hlt Hge.
    pose proof (counted_nonneg chunks true).
    destruct (Z.leb_spec totalSize 0); [lia|].
    unfold bind at 1. unfold get. unfold bind at 1.
    destruct (takeChunks_backlog _ _ _ _ Ht) as [_ Hb].
    rewrite (recvChunks_run chunks (S (backlog z)) totalSize [] 0 true z z1
               lastc Ht ltac:(lia) ltac:(lia) ltac:(lia)).
    cbn [app]. unfold bind, wrapErr, modify, ret.
    destruct (recvData z1) as [[finalResp|e| |] z2]; reflexivity.
Qed.

Lemma recvLargeData_assembles_witness :
  recvLargeData bulkPrepare bulkClient
  = (Ok (bulkFirst ++ bulkShort),
     mkZKTeco "udp" (Some (mkConn [] [] None)) 42 0 bulkAck []).
Proof.
  refine (eq_trans
            (proj2 (recvLargeData_assembles bulkPrepare bulkClient _)
               [bulkFirst] bulkShort
               (mkZKTeco "udp" (Some (mkConn [ReadOk bulkAck] [] None))
                  42 0 bulkPrepare [])
               _ _ _) _).
  - vm_compute. discriminate.
  - reflexivity.
  - vm_compute. reflexivity.
  - vm_compute. discriminate.
  - vm_compute. reflexivity.
Defined.

(** C4, as stated, fails.  The second chunk of this transfer has five
    bytes: it is appended whole and its five bytes are counted, which
    completes the advertised ten; had its leading eight bytes been
    stripped, nothing of it would have been appended or counted. *)
Lemma short_chunk_kept_whole :
  0 < Uint32 (slice 8 12 bulkPrepare)
  /\ recvLargeData bulkPrepare bulkClient
     = (Ok (bulkFirst ++ bulkShort),
        mkZKTeco "udp" (Some (mkConn [] [] None)) 42 0 bulkAck [])
  /\ slice_from 8 bulkShort = []
  /\ recvLargeData bulkPrepare bulkClient
     <> (Ok (bulkFirst ++ slice_from 8 bulkShort),
         mkZKTeco "udp" (Some (mkConn [] [] None)) 42 0 bulkAck []).
Proof.
  repeat split; try (vm_compute; congruence).
Qed.

(* ================================================================== *)
(** * Further properties *)

(** ** Framing: wrap, extract and reassembly *)

Lemma wrapTCP_layout (payload : list byte) :
  len payload < 4294967296 ->
  wrapTCP payload = tcpMagic ++ PutUint32 (len payload) ++ payload.
Proof.
  intros Hlen. unfold wrapTCP, store, tcpMagic, PutUint32.
  cbn [repeat Nat.add firstn skipn app length].
  rewrite skipn_all2 by (rewrite repeat_length; lia).
  rewrite app_nil_r. unfold u32.
  rewrite (Z.mod_small (len payload)) by (pose proof (len_nonneg payload); lia).
  reflexivity.
Qed.

Lemma Uint32_bytes (v : Z) :
  0 <= v < 4294967296 ->
  Uint32 [mk_byte v; mk_byte (Z.shiftr v 8); mk_byte (Z.shiftr v 16);
          mk_byte (Z.shiftr v 24)] = v.
Proof.
  intros Hv. exact (Uint32_PutUint32 v [] Hv).
Qed.

Lemma wrapTCP_length (payload : list byte) :
  length (wrapTCP payload) = (8 + length payload)%nat.
Proof.
  unfold wrapTCP, store, tcpMagic, PutUint32.
  cbn [repeat Nat.add firstn skipn app length].
  rewrite skipn_all2 by (rewrite repeat_length; lia).
  rewrite app_nil_r. reflexivity.
Qed.

(** X1.  A frame built by [wrapTCP], followed by any further bytes, is
    taken off the buffer whole: [extractTCPPacket] returns the packet that
    was wrapped and leaves exactly the further bytes, so two frames received
    back to back come out one after the other. *)
Theorem extract_wrapTCP (payload rest : list byte) :
  len payload < 4294967296 ->
  extractTCPPacket (wrapTCP payload ++ rest) = (payload, rest, true).
Proof.
  apply extractTCPPacket_frame.
Qed.

Lemma extract_wrapTCP_witness :
  extractTCPPacket (wrapTCP [x01; x02] ++ wrapTCP [x03])
  = ([x01; x02], wrapTCP [x03], true).
Proof.
  apply (extract_wrapTCP [x01; x02] (wrapTCP [x03])). vm_compute. reflexivity.
Defined.

(** A buffer that stops short of the end of a frame is left as it is. *)
Lemma extractTCPPacket_prefix (payload : list byte) (n : nat) :
  len payload < 4294967296 ->
  (n < 8 + length payload)%nat ->
  extractTCPPacket (firstn n (wrapTCP payload))
  = ([], firstn n (wrapTCP payload), false).
Proof.
  intros Hlen Hn.
  destruct (Nat.lt_ge_cases n 8) as [Hshort|Hlong].
  - apply extractTCPPacket_short. unfold len. rewrite length_firstn. lia.
  - rewrite (wrapTCP_layout payload Hlen).
    replace n with (8 + (n - 8))%nat by lia.
    unfold tcpMagic, PutUint32. cbn [app firstn Nat.add].
    set (m := (n - 8)%nat).
    unfold extractTCPPacket.
    assert (Hl : len (x50 :: x50 :: x82 :: x7d
                        :: mk_byte (len payload)
                        :: mk_byte (Z.shiftr (len payload) 8)
                        :: mk_byte (Z.shiftr (len payload) 16)
                        :: mk_byte (Z.shiftr (len payload) 24)
                        :: firstn m payload)
                 = 8 + Z.of_nat m).
    { unfold len. cbn [length]. rewrite length_firstn. lia. }
    rewrite Hl. destruct (Z.ltb_spec (8 + Z.of_nat m) 8); [lia|].
    cbn [nth]. change (Byte.eqb x50 x50) with true.
    change (Byte.eqb x82 x82) with true. change (Byte.eqb x7d x7d) with true.
    cbn [negb orb]. unfold slice. cbn [skipn firstn Nat.sub].
    pose proof (len_nonneg payload).
    rewrite (Uint32_bytes (len payload) ltac:(lia)).
    destruct (Z.ltb_spec (8 + Z.of_nat m) (8 + len payload)); [reflexivity|].
    unfold len in *. lia.
Qed.

(** X2.  While fewer bytes than the whole frame are buffered,
    [extractTCPPacket] reports no frame and returns the buffer unchanged:
    a partial frame is never delivered. *)
Theorem extract_partial_frame (payload rest : list byte) (n : nat) :
  len payload < 4294967296 ->
  (n < 8 + length payload)%nat ->
  extractTCPPacket (firstn n (wrapTCP payload ++ rest))
  = ([], firstn n (wrapTCP payload ++ rest), false).
Proof.
  intros Hlen Hn.
  assert (E : firstn n (wrapTCP payload ++ rest) = firstn n (wrapTCP payload)).
  { rewrite firstn_app, wrapTCP_length.
    replace (n - (8 + length payload))%nat with 0%nat by lia.
    cbn [firstn]. apply app_nil_r. }
  rewrite E. apply extractTCPPacket_prefix; assumption.
Qed.

Lemma extract_partial_frame_witness :
  extractTCPPacket (firstn 10 (wrapTCP [x01; x02; x03] ++ [x09]))
  = ([], firstn 10 (wrapTCP [x01; x02; x03] ++ [x09]), false).
Proof.
  apply (extract_partial_frame [x01; x02; x03] [x09] 10).
  - vm_compute. reflexivity.
  - cbn. lia.
Defined.

(** A buffer that is the beginning of a stream and shorter than the frame
    the stream starts with. *)
Lemma prefix_of_frame (buf tail payload rest : list byte) :
  buf ++ tail = wrapTCP payload ++ rest ->
  (length buf < length (wrapTCP payload))%nat ->
  buf = firstn (length buf) (wrapTCP payload).
Proof.
  intros E Hlt.
  assert (H : firstn (length buf) (buf ++ tail)
              = firstn (length buf) (wrapTCP payload ++ rest)) by (rewrite E; reflexivity).
  rewrite firstn_app, firstn_all, Nat.sub_diag in H. cbn [firstn] in H.
  rewrite app_nil_r in H. rewrite H at 1.
  rewrite firstn_app. replace (length buf - length (wrapTCP payload))%nat with 0%nat by lia.
  cbn [firstn]. apply app_nil_r.
Qed.

Lemma recvTCPLoop_reassembles (reads : list (list byte)) :
  forall fuel z c payload rest more,
    (length reads < fuel)%nat ->
    conn z = Some c ->
    incoming c = map ReadOk reads ++ more ->
    len payload < 4294967296 ->
    tcpBuffer z ++ concat reads = wrapTCP payload ++ rest ->
    (reads <> [] ->
     (length (tcpBuffer z ++ concat (removelast reads))
      < length (wrapTCP payload))%nat) ->
    recvTCPLoop fuel z
    = (Ok payload,
       set_tcpBuffer rest
         (set_conn (Some (mkConn more (outgoing c) (writeErr c))) z)).
Proof.
  induction reads as [|r rs IH];
    intros fuel z c payload rest more Hf Hc Hi Hlen Hcat Hshort;
    (destruct fuel as [|fuel]; [cbn [length] in Hf; lia|]);
    rewrite recvTCPLoop_step.
  - cbn [concat] in Hcat. rewrite app_nil_r in Hcat.
    rewrite Hcat, (extractTCPPacket_frame payload rest Hlen).
    cbn [map app] in Hi. destruct z as [pr cn sid rid ld buf].
    cbn [conn] in Hc. subst cn. destruct c as [inc out we].
    cbn [incoming] in Hi. subst inc. reflexivity.
  - assert (Hb : (length (tcpBuffer z) < length (wrapTCP payload))%nat).
    { specialize (Hshort ltac:(discriminate)). rewrite length_app in Hshort. lia. }
    assert (Hex : extractTCPPacket (tcpBuffer z) = ([], tcpBuffer z, false)).
    { pose proof (prefix_of_frame _ _ _ _ Hcat Hb) as Hp. rewrite Hp.
      apply extractTCPPacket_prefix; [assumption|].
      rewrite wrapTCP_length in Hb. exact Hb. }
    rewrite Hex. unfold connRead. rewrite Hc, Hi. cbn [map app].
    cbn [tcpBuffer set_conn].
    rewrite (IH fuel _ (mkConn (map ReadOk rs ++ more) (outgoing c) (writeErr c))
               payload rest more).
    + destruct z; reflexivity.
    + cbn [length] in Hf. lia.
    + reflexivity.
    + reflexivity.
    + assumption.
    + cbn [tcpBuffer set_tcpBuffer]. rewrite <- app_assoc. exact Hcat.
    + intros Hrs. cbn [tcpBuffer set_tcpBuffer].
      specialize (Hshort ltac:(discriminate)).
      destruct rs as [|r' rs']; [contradiction|].
      cbn [removelast concat] in Hshort. cbn [concat].
      rewrite <- app_assoc. exact Hshort.
Qed.

(** X3.  Reassembly.  However the bytes of a frame are split between what
    is already buffered and the reads that follow, [recvTCP] returns the
    packet once the read that completes the frame has arrived; it keeps the
    bytes that followed the frame in the buffer and leaves the later reads
    on the connection. *)
Theorem recvTCP_reassembles (z : ZKTeco) (c : Conn) (reads : list (list byte))
    (payload rest : list byte) (more : list read_result) :
  conn z = Some c ->
  incoming c = map ReadOk reads ++ more ->
  len payload < 4294967296 ->
  tcpBuffer z ++ concat reads = wrapTCP payload ++ rest ->
  (reads <> [] ->
   (length (tcpBuffer z ++ concat (removelast reads))
    < length (wrapTCP payload))%nat) ->
  recvTCP z
  = (Ok payload,
     set_tcpBuffer rest
       (set_conn (Some (mkConn more (outgoing c) (writeErr c))) z)).
Proof.
  intros Hc Hi Hlen Hcat Hshort. unfold recvTCP.
  apply (recvTCPLoop_reassembles reads); try assumption.
  unfold pending. rewrite Hc, Hi, length_app, length_map. lia.
Qed.

Lemma recvTCP_reassembles_witness :
  recvTCP splitClient
  = (Ok splitPayload,
     mkZKTeco "tcp" (Some (mkConn [ReadOk [x82]] [] None)) 42 0 []
       [x50; x50]).
Proof.
  apply (recvTCP_reassembles splitClient
           (mkConn
              [ReadOk (firstn 4 (skipn 5 (wrapTCP splitPayload)));
               ReadOk (skipn 9 (wrapTCP splitPayload) ++ [x50; x50]);
               ReadOk [x82]] [] None)
           [firstn 4 (skipn 5 (wrapTCP splitPayload));
            skipn 9 (wrapTCP splitPayload) ++ [x50; x50]]
           splitPayload [x50; x50] [ReadOk [x82]]).
  - reflexivity.
  - reflexivity.
  - vm_compute. reflexivity.
  - vm_compute. reflexivity.
  - intros _. vm_compute. lia.
Defined.

(** ** Building and parsing *)

Lemma parsePacket_serialize (cmd ck sid rid : Z) (payload : list byte) :
  is_u16 cmd -> is_u16 ck -> is_u16 sid -> is_u16 rid ->
  parsePacket (serialize cmd ck sid rid payload)
  = Ok (mkPacket cmd ck sid rid payload).
Proof.
  intros Hcmd Hck Hsid Hrid. rewrite parsePacket_long.
  - unfold serialize, PutUint16, slice, slice_from, Uint16.
    cbn [app skipn firstn Nat.sub].
    rewrite !u16_field by assumption. reflexivity.
  - rewrite len_serialize. pose proof (len_nonneg payload). lia.
Qed.

(** X4.  The packet [createHeader] builds parses back, with [parsePacket],
    to the command, session and payload it was built from, to the checksum
    of its zero-checksum serialization, and to the replyID the builder
    returned alongside it; it is eight bytes longer than the payload. *)
Theorem parsePacket_createHeader (cmd sid rid : Z) (data : list byte) :
  is_u16 cmd -> is_u16 sid -> is_u16 rid ->
  let hdr := createHeader cmd sid rid data in
  parsePacket (fst hdr)
  = Ok (mkPacket cmd (calculateChecksum (serialize cmd 0 sid rid data)) sid
          (snd hdr) data)
  /\ len (fst hdr) = 8 + len data.
Proof.
  intros Hcmd Hsid Hrid hdr. subst hdr. rewrite createHeader_layout.
  cbn [fst snd]. split.
  - apply parsePacket_serialize; try assumption.
    + pose proof (calculateChecksum_range (serialize cmd 0 sid rid data)).
      unfold is_u16. lia.
    + pose proof (nextReply_range rid Hrid). unfold is_u16. lia.
  - apply len_serialize.
Qed.

Lemma parsePacket_createHeader_witness :
  parsePacket (fst (createHeader CMD_CONNECT 0 65534 []))
  = Ok (mkPacket CMD_CONNECT
          (calculateChecksum (serialize CMD_CONNECT 0 0 65534 [])) 0
          (snd (createHeader CMD_CONNECT 0 65534 [])) [])
  /\ len (fst (createHeader CMD_CONNECT 0 65534 [])) = 8 + len [].
Proof.
  apply (parsePacket_createHeader CMD_CONNECT 0 65534 []);
    unfold is_u16, CMD_CONNECT; lia.
Defined.

(** The first packet of every session, as it goes on the wire. *)
Example connect_packet_bytes :
  fst (createHeader CMD_CONNECT 0 65534 [])
  = [xe8; x03; x17; xfc; x00; x00; x00; x00].
Proof. vm_compute. reflexivity. Qed.

(** ** The bounded wait of the chunk reader *)

Lemma readNextLoop_gives_up (reads : list (list byte)) :
  forall z c more,
    conn z = Some c ->
    incoming c = map ReadOk reads ++ more ->
    (forall k, (k < length reads)%nat ->
       snd (extractTCPPacket (tcpBuffer z ++ concat (firstn k reads))) = false) ->
    readNextLoop (length reads) z
    = (Err ErrMaxAttempts,
       set_tcpBuffer (tcpBuffer z ++ concat reads)
         (set_conn (Some (mkConn more (outgoing c) (writeErr c))) z)).
Proof.
  induction reads as [|r rs IH]; intros z c more Hc Hi Hno.
  - cbn [length readNextLoop concat]. unfold fail. rewrite app_nil_r.
    cbn [map app] in Hi. destruct z as [pr cn sid rid ld buf].
    cbn [conn] in Hc. subst cn. destruct c as [inc out we].
    cbn [incoming] in Hi. subst inc. reflexivity.
  - cbn [length]. rewrite readNextLoop_step.
    pose proof (Hno 0%nat ltac:(cbn [length]; lia)) as H0.
    cbn [firstn concat] in H0. rewrite app_nil_r in H0.
    destruct (extractTCPPacket (tcpBuffer z)) as [[p rem] ok].
    cbn [snd] in H0. subst ok.
    unfold connRead. rewrite Hc, Hi. cbn [map app]. cbn [tcpBuffer set_conn].
    rewrite (IH _ (mkConn (map ReadOk rs ++ more) (outgoing c) (writeErr c)) more).
    + cbn [tcpBuffer set_tcpBuffer concat outgoing writeErr].
      rewrite <- app_assoc. destruct z; reflexivity.
    + reflexivity.
    + reflexivity.
    + intros k Hk. cbn [tcpBuffer set_tcpBuffer].
      specialize (Hno (S k) ltac:(cbn [length]; lia)).
      cbn [firstn concat] in Hno. rewrite <- app_assoc. exact Hno.
Qed.

(** X5.  [readNextTCPPayload] reads at most fifty times.  When none of the
    fifty passes finds a complete frame in the buffer, it fails with the
    max-attempts error; the fifty reads are consumed and their bytes stay
    in the buffer (which is not examined again after the fiftieth read). *)
Theorem readNextTCPPayload_gives_up (z : ZKTeco) (c : Conn)
    (reads : list (list byte)) (more : list read_result) :
  conn z = Some c ->
  incoming c = map ReadOk reads ++ more ->
  length reads = 50%nat ->
  (forall k, (k < 50)%nat ->
     snd (extractTCPPacket (tcpBuffer z ++ concat (firstn k reads))) = false) ->
  readNextTCPPayload z
  = (Err ErrMaxAttempts,
     set_tcpBuffer (tcpBuffer z ++ concat reads)
       (set_conn (Some (mkConn more (outgoing c) (writeErr c))) z)).
Proof.
  intros Hc Hi Hlen Hno. unfold readNextTCPPayload. rewrite <- Hlen.
  apply readNextLoop_gives_up; try assumption.
  rewrite Hlen. exact Hno.
Qed.

Lemma readNextTCPPayload_gives_up_witness :
  readNextTCPPayload idleClient
  = (Err ErrMaxAttempts,
     mkZKTeco "tcp" (Some (mkConn [ReadOk [x01]] [] None)) 42 0 [] []).
Proof.
  apply (readNextTCPPayload_gives_up idleClient
           (mkConn (repeat (ReadOk []) 50 ++ [ReadOk [x01]]) [] None)
           (repeat [] 50) [ReadOk [x01]]).
  - reflexivity.
  - reflexivity.
  - reflexivity.
  - intros k Hk. do 50 (destruct k as [|k]; [reflexivity|]). lia.
Defined.

(** ** What an exchange keeps and what it guarantees *)

Lemma keepsSession_identity (z z' : ZKTeco) :
  sameSession z z' -> sameIdentity z z'.
Proof. intros (H1 & H2 & _). split; assumption. Qed.

Lemma sameIdentity_trans (z1 z2 z3 : ZKTeco) :
  sameIdentity z1 z2 -> sameIdentity z2 z3 -> sameIdentity z1 z3.
Proof.
  unfold sameIdentity. intros [? ?] [? ?]. split; congruence.
Qed.

Lemma readNextLoop_keeps (left : nat) : keepsSession (readNextLoop left).
Proof.
  induction left as [|left IH]; intros z r z' H.
  - inversion H; subst. apply sameSession_refl.
  - rewrite readNextLoop_step in H.
    destruct (extractTCPPacket (tcpBuffer z)) as [[payload remainder] [|]].
    + inversion H; subst. apply sameSession_tcpBuffer.
    + destruct (connRead z) as [[bs|e| |] z1] eqn:Er;
        pose proof (connRead_keeps _ _ _ Er) as Hs;
        try (inversion H; subst; exact Hs).
      apply IH in H. eapply sameSession_trans; [exact Hs|].
      eapply sameSession_trans; [apply sameSession_tcpBuffer | exact H].
Qed.

Lemma readChunk_keeps : keepsSession readChunk.
Proof.
  intros z r z' H. unfold readChunk, bind, get in H. destruct (IsTCP z).
  - eapply readNextLoop_keeps. exact H.
  - eapply connRead_keeps. exact H.
Qed.

Lemma recvChunks_keeps (fuel : nat) :
  forall totalSize allData received first,
    keepsSession (recvChunks fuel totalSize allData received first).
Proof.
  induction fuel as [|fuel IH]; intros totalSize allData received first z r z' H.
  - cbn [recvChunks] in H. destruct (received <? totalSize);
      inversion H; subst; apply sameSession_refl.
  - destruct (Z.lt_ge_cases received totalSize) as [Hlt|Hge].
    + destruct (readChunk z) as [[chunk|e| |] z1] eqn:Er;
        pose proof (readChunk_keeps _ _ _ Er) as Hs.
      * rewrite (recvChunks_more _ _ _ _ _ _ _ _ Hlt Er) in H.
        apply IH in H. eapply sameSession_trans; eassumption.
      * rewrite (recvChunks_fail _ _ _ _ _ _ _ _ Hlt Er) in H.
        inversion H; subst. exact Hs.
      * cbn [recvChunks] in H.
        destruct (Z.ltb_spec received totalSize); [|lia].
        unfold bind, wrapErr in H. rewrite Er in H. inversion H; subst. exact Hs.
      * cbn [recvChunks] in H.
        destruct (Z.ltb_spec received totalSize); [|lia].
        unfold bind, wrapErr in H. rewrite Er in H. inversion H; subst. exact Hs.
    + rewrite recvChunks_done in H by exact Hge. inversion H; subst.
      apply sameSession_refl.
Qed.

Lemma recvLargeData_identity (prepareResp : list byte) (z z' : ZKTeco)
    (r : outcome (list byte)) :
  recvLargeData prepareResp z = (r, z') -> sameIdentity z z'.
Proof.
  unfold recvLargeData.
  destruct (len prepareResp <? 12);
    [intros H; inversion H; subst; split; reflexivity|].
  destruct (Uint32 (slice 8 12 prepareResp) <=? 0);
    [intros H; inversion H; subst; split; reflexivity|].
  unfold bind at 1. unfold get. unfold bind at 1.
  destruct (recvChunks _ _ _ _ _ z) as [[allData|e| |] z1] eqn:Ec;
    pose proof (keepsSession_identity _ _ (recvChunks_keeps _ _ _ _ _ _ _ _ Ec))
      as Hs1;
    try (intros H; inversion H; subst; exact Hs1).
  unfold bind, wrapErr, modify, ret.
  destruct (recvData z1) as [[finalResp|e| |] z2] eqn:Er;
    pose proof (keepsSession_identity _ _ (recvData_keeps _ _ _ Er)) as Hs2;
    intros H; inversion H; subst;
    eapply sameIdentity_trans; eassumption.
Qed.

Lemma primed_identity (z : ZKTeco) : sameIdentity z (primed z).
Proof.
  unfold primed. destruct (len (lastData z) >=? 8); split; reflexivity.
Qed.

Lemma command_identity (cmd : Z) (data : list byte) (cmdType : string)
    (z z' : ZKTeco) (r : outcome (list byte)) :
  command cmd data cmdType z = (r, z') -> sameIdentity z z'.
Proof.
  rewrite command_unfold. cbv zeta.
  pose proof (primed_identity z) as H0.
  destruct (sendData _ (primed z)) as [[[]|e| |] z1] eqn:Es;
    pose proof (keepsSession_identity _ _ (sendData_keeps _ _ _ _ Es)) as H1;
    try (intros H; inversion H; subst; eapply sameIdentity_trans; eassumption).
  destruct (recvData z1) as [[resp|e| |] z2] eqn:Er;
    pose proof (keepsSession_identity _ _ (recvData_keeps _ _ _ Er)) as H2;
    try (intros H; inversion H; subst;
         eapply sameIdentity_trans; [exact H0|];
         eapply sameIdentity_trans; eassumption).
  assert (H3 : sameIdentity z
                 (set_lastData resp
                    (set_replyID
                       (snd (createHeader cmd (sessionID (primed z))
                               (replyID (primed z)) data)) z2))).
  { eapply sameIdentity_trans; [exact H0|].
    eapply sameIdentity_trans; [exact H1|].
    eapply sameIdentity_trans; [exact H2|]. split; reflexivity. }
  destruct (String.eqb cmdType "data");
    [intros H; inversion H; subst; exact H3|].
  destruct (negb (sessionID _ =? 0) && (len resp >=? 6));
    [|intros H; inversion H; subst; exact H3].
  destruct (negb (Uint16 (slice 4 6 resp) =? sessionID _));
    intros H; inversion H; subst; exact H3.
Qed.

(** X6.  No exchange changes the identity of the session: whatever
    [command] and [commandData] return (a response, an error, a failed
    transfer), the client afterwards has the session id and the protocol it
    had before. *)
Theorem exchange_keeps_identity (cmd : Z) (data : list byte)
    (cmdType : string) (z : ZKTeco) :
  sameIdentity z (snd (command cmd data cmdType z))
  /\ sameIdentity z (snd (commandData cmd data z)).
Proof.
  split.
  - destruct (command cmd data cmdType z) as [r z'] eqn:E.
    exact (command_identity _ _ _ _ _ _ E).
  - unfold commandData, bind.
    destruct (command cmd data "data" z) as [[resp|e| |] z1] eqn:E;
      pose proof (command_identity _ _ _ _ _ _ E) as H1; try exact H1.
    destruct (parsePacket resp) as [pkt|e| |]; try exact H1.
    destruct (Command pkt =? CMD_PREPARE_DATA).
    + destruct (recvLargeData resp z1) as [r z2] eqn:El.
      eapply sameIdentity_trans; [exact H1|].
      exact (recvLargeData_identity _ _ _ _ El).
    + destruct ((Command pkt =? CMD_ACK_DATA) || (Command pkt =? CMD_ACK_OK));
        exact H1.
Qed.




Lemma primed_set_replyID (r : Z) (z : ZKTeco) :
  8 <= len (lastData z) -> primed (set_replyID r z) = primed z.
Proof.
  intros H. unfold primed. cbn [lastData set_replyID].
  destruct (Z.geb_spec (len (lastData z)) 8); [reflexivity | lia].
Qed.

(** X8.  Once a response of at least eight bytes is on record, the replyID
    on record plays no part in the next exchange: the packet is primed with
    the replyID echoed in bytes 6 to 8 of that response, so [command] does
    the same from any stored replyID. *)
Theorem stored_replyID_ignored (cmd r : Z) (data : list byte)
    (cmdType : string) (z : ZKTeco) :
  8 <= len (lastData z) ->
  command cmd data cmdType (set_replyID r z) = command cmd data cmdType z.
Proof.
  intros H. rewrite !command_unfold, (primed_set_replyID r z H). reflexivity.
Qed.

Lemma stored_replyID_ignored_witness :
  command CMD_EXIT [] "general" (set_replyID 65534 bulkClient)
  = command CMD_EXIT [] "general" bulkClient.
Proof.
  apply (stored_replyID_ignored CMD_EXIT 65534 [] "general" bulkClient).
  vm_compute. discriminate.
Defined.

(** ** Bulk data: what the callers get *)

(** The chunk receiver on the chunks the transport delivers (the loop, then
    the trailing frame). *)
Lemma recvLargeData_chunks (prepareResp : list byte) (z z1 : ZKTeco)
    (chunks : list (list byte)) (lastc : list byte) :
  12 <= len prepareResp ->
  takeChunks (S (length chunks)) z = Some (chunks ++ [lastc], z1) ->
  counted true chunks < Uint32 (slice 8 12 prepareResp) ->
  Uint32 (slice 8 12 prepareResp) <= counted true (chunks ++ [lastc]) ->
  recvLargeData prepareResp z
  = match recvData z1 with
    | (Ok finalResp, z2) =>
        (Ok (gathered true (chunks ++ [lastc])), set_lastData finalResp z2)
    | (Err e, z2) => (Err (ErrFinalAck e), z2)
    | (Panic, z2) => (Panic, z2)
    | (Diverged, z2) => (Diverged, z2)
    end.
Proof.
  intros Hlen Ht Hlt Hge. unfold recvLargeData.
  destruct (Z.ltb_spec (len prepareResp) 12); [lia|].
  pose proof (counted_nonneg chunks true).
  destruct (Z.leb_spec (Uint32 (slice 8 12 prepareResp)) 0); [lia|].
  unfold bind at 1. unfold get. unfold bind at 1.
  destruct (takeChunks_backlog _ _ _ _ Ht) as [_ Hb].
  assert (Hfuel : (length chunks < S (backlog z))%nat) by lia.
  rewrite (recvChunks_run chunks (S (backlog z)) _ [] 0 true z z1 lastc Ht Hfuel)
    by lia.
  cbn [app]. unfold bind, wrapErr, modify, ret.
  destruct (recvData z1) as [[finalResp|e| |] z2]; reflexivity.
Qed.

Lemma joinPart_long (part : list byte * list byte) :
  length (fst part) = 8%nat -> snd part <> [] ->
  (len (joinPart part) >? 8) = true
  /\ len (joinPart part) - 8 = len (snd part)
  /\ slice_from 8 (joinPart part) = snd part.
Proof.
  destruct part as [h d]. cbn [fst snd]. intros Hh Hd.
  unfold joinPart, len, slice_from. cbn [fst snd]. rewrite length_app, Hh.
  assert (0 < length d)%nat by (destruct d; [contradiction | cbn; lia]).
  split; [apply Z.gtb_lt; lia|]. split; [lia|].
  rewrite <- Hh, skipn_app, skipn_all, Nat.sub_diag. reflexivity.
Qed.

Lemma parts_later (parts : list (list byte * list byte)) :
  (forall p, In p parts -> length (fst p) = 8%nat /\ snd p <> []) ->
  gathered false (map joinPart parts) = concat (map snd parts)
  /\ counted false (map joinPart parts) = len (concat (map snd parts)).
Proof.
  induction parts as [|p ps IH]; intros Hall.
  - split; reflexivity.
  - destruct (Hall p (or_introl eq_refl)) as [Hh Hd].
    destruct (joinPart_long p Hh Hd) as (Hlong & Hcount & Hkeep).
    destruct (IH (fun q Hq => Hall q (or_intror Hq))) as [IHg IHc].
    cbn [map gathered counted concat]. unfold nextKeep, nextCount.
    rewrite Hlong, Hkeep, Hcount, IHg, IHc, len_app. split; reflexivity.
Qed.

Lemma parts_first (parts : list (list byte * list byte)) :
  (forall p, In p parts -> length (fst p) = 8%nat /\ snd p <> []) ->
  counted true (map joinPart parts) = len (concat (map snd parts))
  /\ (forall p ps, parts = p :: ps ->
        gathered true (map joinPart parts)
        = fst p ++ concat (map snd parts)).
Proof.
  destruct parts as [|p ps]; intros Hall.
  - split; [reflexivity | discriminate].
  - destruct (Hall p (or_introl eq_refl)) as [Hh Hd].
    destruct (joinPart_long p Hh Hd) as (Hlong & Hcount & Hkeep).
    destruct (parts_later ps (fun q Hq => Hall q (or_intror Hq))) as [Hg Hc].
    cbn [map gathered counted concat]. unfold firstCount.
    rewrite Hlong, Hcount, Hg, Hc, len_app. split; [reflexivity|].
    intros p' ps' E. inversion E; subst. unfold joinPart.
    rewrite <- app_assoc. reflexivity.
Qed.

(** A transfer whose chunks are an eight-byte sub-header followed by data:
    the result is the sub-header of the first chunk and the data of all
    chunks. *)
Lemma recvLargeData_parts (prepareResp finalResp : list byte)
    (z z1 z2 : ZKTeco) (parts : list (list byte * list byte)) :
  12 <= len prepareResp ->
  parts <> [] ->
  (forall p, In p parts -> length (fst p) = 8%nat /\ snd p <> []) ->
  Uint32 (slice 8 12 prepareResp) = len (concat (map snd parts)) ->
  takeChunks (length parts) z = Some (map joinPart parts, z1) ->
  recvData z1 = (Ok finalResp, z2) ->
  recvLargeData prepareResp z
  = (Ok (fst (hd ([], []) parts) ++ concat (map snd parts)),
     set_lastData finalResp z2).
Proof.
  intros Hlen Hne Hall Htotal Htake Hack.
  destruct (exists_last Hne) as (init & lastp & ->).
  rewrite map_app in Htake. cbn [map] in Htake.
  rewrite length_app in Htake. cbn [length] in Htake.
  replace (length init + 1)%nat with (S (length (map joinPart init))) in Htake
    by (rewrite length_map; lia).
  assert (Hinit : forall p, In p init -> length (fst p) = 8%nat /\ snd p <> []).
  { intros p Hp. apply Hall, in_or_app. left. exact Hp. }
  destruct (Hall lastp ltac:(apply in_or_app; right; left; reflexivity))
    as [Hlh Hld].
  destruct (parts_first _ Hall) as [Hcount Hgather].
  destruct (parts_first _ Hinit) as [Hcount0 _].
  rewrite map_app in Hcount, Hgather. cbn [map] in Hcount, Hgather.
  assert (Hless : counted true (map joinPart init)
                  < Uint32 (slice 8 12 prepareResp)).
  { rewrite Hcount0, Htotal, map_app, concat_app, len_app.
    cbn [map concat]. rewrite app_nil_r.
    assert (0 < len (snd lastp)); [|lia].
    unfold len. destruct (snd lastp); [contradiction | cbn [length]; lia]. }
  rewrite (recvLargeData_chunks prepareResp z z1 _ _ Hlen Htake Hless)
    by (rewrite Hcount, Htotal; lia).
  rewrite Hack.
  destruct (init ++ [lastp]) as [|p ps] eqn:E;
    [destruct init; discriminate|].
  rewrite (Hgather p ps eq_refl). reflexivity.
Qed.

(** X9.  Reconstruction.  When every chunk of a transfer is an eight-byte
    sub-header followed by data, and the data of all chunks add up to the
    advertised total, [recvLargeData] returns the sub-header of the first
    chunk followed by the data of all chunks in order: dropping the first
    eight bytes of the result, as the callers do, leaves exactly the data.
    The frame after the last chunk is kept as the last response. *)
Theorem recvLargeData_reconstructs (prepareResp finalResp : list byte)
    (z z1 z2 : ZKTeco) (parts : list (list byte * list byte)) :
  12 <= len prepareResp ->
  parts <> [] ->
  (forall p, In p parts -> length (fst p) = 8%nat /\ snd p <> []) ->
  Uint32 (slice 8 12 prepareResp) = len (concat (map snd parts)) ->
  takeChunks (length parts) z = Some (map joinPart parts, z1) ->
  recvData z1 = (Ok finalResp, z2) ->
  exists allData,
    recvLargeData prepareResp z = (Ok allData, set_lastData finalResp z2)
    /\ slice_from 8 allData = concat (map snd parts)
    /\ firstn 8 allData = fst (hd ([], []) parts).
Proof.
  intros Hlen Hne Hall Htotal Htake Hack.
  eexists. split;
    [exact (recvLargeData_parts _ _ _ _ _ _ Hlen Hne Hall Htotal Htake Hack)|].
  destruct parts as [|p ps]; [contradiction|]. cbn [hd].
  destruct (Hall p (or_introl eq_refl)) as [Hh _].
  unfold slice_from. split.
  - rewrite <- Hh, skipn_app, skipn_all, Nat.sub_diag. reflexivity.
  - rewrite <- Hh, firstn_app, firstn_all, Nat.sub_diag. cbn [firstn].
    apply app_nil_r.
Qed.

Lemma recvLargeData_reconstructs_witness :
  exists allData,
    recvLargeData tcpBulkPrepare tcpBulkClient
    = (Ok allData,
       set_lastData bulkAck
         (mkZKTeco "tcp" (Some (mkConn [] [] None)) 42 0 tcpBulkPrepare []))
    /\ slice_from 8 allData = concat (map snd tcpBulkParts)
    /\ firstn 8 allData = fst (hd ([], []) tcpBulkParts).
Proof.
  apply (recvLargeData_reconstructs tcpBulkPrepare bulkAck tcpBulkClient
           (mkZKTeco "tcp" (Some (mkConn [ReadOk (wrapTCP bulkAck)] [] None))
              42 0 tcpBulkPrepare [])
           (mkZKTeco "tcp" (Some (mkConn [] [] None)) 42 0 tcpBulkPrepare [])
           tcpBulkParts).
  - vm_compute. discriminate.
  - discriminate.
  - intros p [<-|[<-|[]]]; split; (reflexivity || discriminate).
  - vm_compute. reflexivity.
  - vm_compute. reflexivity.
  - vm_compute. reflexivity.
Defined.

(** ** Timestamps: every 32-bit value, every year *)

(** X10.  Whatever 32-bit value it is given, [decodeTime] hands
    [time.Date] fields in range: second and minute 0..59, hour 0..23, day
    1..31, month 1..12, and a year from 2000 to 2133. *)
Theorem decodeTime_fields_in_range (t : Z) :
  0 <= t < 4294967296 ->
  let d := decodeTime t in
  0 <= Second d <= 59 /\ 0 <= Minute d <= 59 /\ 0 <= Hour d <= 23
  /\ 1 <= Day d <= 31 /\ 1 <= Month d <= 12 /\ 2000 <= Year d <= 2133.
Proof.
  intros Ht. unfold decodeTime. cbn [Second Minute Hour Day Month Year].
  pose proof (Z.mod_pos_bound t 60 ltac:(lia)).
  pose proof (Z.mod_pos_bound (t / 60) 60 ltac:(lia)).
  pose proof (Z.mod_pos_bound (t / 60 / 60) 24 ltac:(lia)).
  pose proof (Z.mod_pos_bound (t / 60 / 60 / 24) 31 ltac:(lia)).
  pose proof (Z.mod_pos_bound (t / 60 / 60 / 24 / 31) 12 ltac:(lia)).
  assert (0 <= t / 60 / 60 / 24 / 31 / 12 <= 133).
  { replace (t / 60 / 60 / 24 / 31 / 12) with (t / 32140800)
      by (rewrite !Z.div_div by lia; reflexivity).
    split.
    - apply Z.div_pos; lia.
    - assert (t / 32140800 < 134); [|lia].
      apply Z.div_lt_upper_bound; lia. }
  repeat split; lia.
Qed.

Lemma decodeTime_fields_in_range_witness :
  let d := decodeTime 4294967295 in
  0 <= Second d <= 59 /\ 0 <= Minute d <= 59 /\ 0 <= Hour d <= 23
  /\ 1 <= Day d <= 31 /\ 1 <= Month d <= 12 /\ 2000 <= Year d <= 2133.
Proof.
  apply (decodeTime_fields_in_range 4294967295). lia.
Defined.





(** ** Strings and hex *)

Lemma trimRightByte_repeat (c : byte) (n : nat) :
  trimRightByte c (repeat c n) = [].
Proof.
  induction n as [|n IH]; cbn [repeat trimRightByte]; [reflexivity|].
  rewrite IH. destruct (Byte.eqb c c) eqn:E; [reflexivity|].
  apply Byte.eqb_false in E. contradiction.
Qed.

(** Trailing copies of [c] go, and nothing else: a string that does not
    end in [c] comes back whole however many [c] follow it. *)
Lemma trimRightByte_padding (c d : byte) (s : list byte) (n : nat) :
  d <> c -> last s d <> c ->
  trimRightByte c (s ++ repeat c n) = s.
Proof.
  intros Hd. induction s as [|b s IH]; intros Hlast.
  - apply trimRightByte_repeat.
  - cbn [app trimRightByte]. destruct s as [|b' s].
    + cbn [app]. rewrite trimRightByte_repeat. cbn [last] in Hlast.
      destruct (Byte.eqb b c) eqn:E; [|reflexivity].
      apply Byte.byte_dec_bl in E. contradiction.
    + rewrite IH by exact Hlast. reflexivity.
Qed.

Lemma EncodeToString_cons (b : byte) (l : list byte) :
  EncodeToString (b :: l) = EncodeToString [b] ++ EncodeToString l.
Proof. reflexivity. Qed.

Lemma EncodeToString_app (l1 l2 : list byte) :
  EncodeToString (l1 ++ l2) = EncodeToString l1 ++ EncodeToString l2.
Proof. unfold EncodeToString. apply flat_map_app. Qed.

Lemma EncodeToString_length (l : list byte) :
  length (EncodeToString l) = (2 * length l)%nat.
Proof.
  induction l as [|b l IH]; [reflexivity|].
  rewrite EncodeToString_cons, length_app, IH. cbn [EncodeToString flat_map app length]. lia.
Qed.

Lemma even_length_snoc (s : list byte) :
  Nat.even (length s) = true -> s <> [] ->
  exists s' a b, s = s' ++ [a; b] /\ Nat.even (length s') = true.
Proof.
  intros He Hne.
  destruct (exists_last Hne) as (s1 & b & ->).
  rewrite length_app in He. cbn [length] in He.
  destruct s1 as [|x s1] using rev_ind.
  - cbn in He. discriminate.
  - clear IHs1. exists s1, x, b. split.
    + rewrite <- app_assoc. reflexivity.
    + rewrite length_app in He. cbn [length] in He.
      replace (length s1 + 1 + 1)%nat with (S (S (length s1))) in He by lia.
      exact He.
Qed.

Lemma revPairs_snoc (s : list byte) (a b : byte) :
  Nat.even (length s) = true ->
  revPairs (s ++ [a; b]) = [a; b] ++ revPairs s.
Proof.
  induction s as [| x | x y s IH] using pair_induction; intros He.
  - reflexivity.
  - discriminate.
  - cbn [app revPairs]. rewrite IH by exact He. reflexivity.
Qed.

(** The loop of [reverseHex], from the index it has reached: it appends
    the pairs before that index, last pair first, and never looks at
    the character an odd length leaves at the front. *)
Lemma reverseHexLoop_spec (fuel : nat) :
  forall lead pre suf result,
    (length lead <= 1)%nat ->
    Nat.even (length pre) = true ->
    (length pre <= 2 * fuel)%nat ->
    reverseHexLoop fuel (Z.of_nat (length lead + length pre) - 2)
      (lead ++ pre ++ suf) result
    = result ++ revPairs pre.
Proof.
  induction fuel as [|fuel IH]; intros lead pre suf result Hlead He Hf.
  - destruct pre; [|cbn [length] in Hf; lia]. cbn. symmetry. apply app_nil_r.
  - cbn [reverseHexLoop].
    destruct pre as [|p0 pre0] eqn:Epre.
    + cbn [length]. destruct (Z.geb_spec (Z.of_nat (length lead + 0) - 2) 0);
        [lia|]. symmetry. apply app_nil_r.
    + rewrite <- Epre in *.
      destruct (even_length_snoc pre He ltac:(subst; discriminate))
        as (pre' & a & b & E & He').
      rewrite E in *. rewrite length_app in *. cbn [length] in *.
      destruct (Z.geb_spec (Z.of_nat (length lead + (length pre' + 2)) - 2) 0);
        [|lia].
      assert (Hslice :
        slice (Z.to_nat (Z.of_nat (length lead + (length pre' + 2)) - 2))
              (Z.to_nat (Z.of_nat (length lead + (length pre' + 2)) - 2 + 2))
              (lead ++ (pre' ++ [a; b]) ++ suf) = [a; b]).
      { unfold slice.
        replace (Z.to_nat (Z.of_nat (length lead + (length pre' + 2)) - 2))
          with (length (lead ++ pre')) by (rewrite length_app; lia).
        replace (Z.to_nat (Z.of_nat (length lead + (length pre' + 2)) - 2 + 2)
                 - length (lead ++ pre'))%nat with 2%nat
          by (rewrite length_app; lia).
        replace (lead ++ (pre' ++ [a; b]) ++ suf)
          with ((lead ++ pre') ++ [a; b] ++ suf)
          by (rewrite <- !app_assoc; reflexivity).
        rewrite skipn_app, skipn_all, Nat.sub_diag. reflexivity. }
      rewrite Hslice.
      replace (Z.of_nat (length lead + (length pre' + 2)) - 2 - 2)
        with (Z.of_nat (length lead + length pre') - 2) by lia.
      replace (lead ++ (pre' ++ [a; b]) ++ suf)
        with (lead ++ pre' ++ ([a; b] ++ suf))
        by (rewrite <- !app_assoc; reflexivity).
      rewrite IH by (try assumption; lia).
      rewrite revPairs_snoc by exact He'. rewrite <- app_assoc. reflexivity.
Qed.

Lemma reverseHex_even (s : list byte) :
  Nat.even (length s) = true -> reverseHex s = revPairs s.
Proof.
  intros He. unfold reverseHex, len.
  pose proof (reverseHexLoop_spec (length s) [] s [] [] ltac:(cbn; lia) He
                ltac:(lia)) as H.
  cbn [app length Nat.add] in H. rewrite app_nil_r in H. exact H.
Qed.

Lemma reverseHex_odd (c : byte) (s : list byte) :
  Nat.even (length s) = true -> reverseHex (c :: s) = revPairs s.
Proof.
  intros He. unfold reverseHex, len.
  pose proof (reverseHexLoop_spec (length (c :: s)) [c] s [] []
                ltac:(cbn; lia) He ltac:(cbn [length]; lia)) as H.
  cbn [app] in H. rewrite app_nil_r in H. exact H.
Qed.

Lemma revPairs_length (s : list byte) :
  Nat.even (length s) = true -> length (revPairs s) = length s.
Proof.
  induction s as [| x | x y s IH] using pair_induction; intros He.
  - reflexivity.
  - discriminate.
  - cbn [revPairs]. rewrite length_app, IH by exact He. cbn [length]. lia.
Qed.

Lemma revPairs_involutive (s : list byte) :
  Nat.even (length s) = true -> revPairs (revPairs s) = s.
Proof.
  induction s as [| x | x y s IH] using pair_induction; intros He.
  - reflexivity.
  - discriminate.
  - cbn [revPairs]. rewrite revPairs_snoc by (rewrite revPairs_length; exact He).
    rewrite IH by exact He. reflexivity.
Qed.

Lemma revPairs_EncodeToString (bs : list byte) :
  revPairs (EncodeToString bs) = EncodeToString (rev bs).
Proof.
  induction bs as [|b bs IH]; [reflexivity|].
  cbn [rev]. rewrite EncodeToString_app, <- IH. reflexivity.
Qed.

Lemma EncodeToString_even (bs : list byte) :
  Nat.even (length (EncodeToString bs)) = true.
Proof.
  rewrite EncodeToString_length. induction (length bs) as [|n IH];
    [reflexivity|].
  replace (2 * S n)%nat with (S (S (2 * n))) by lia. exact IH.
Qed.

(** X13.  On the hex encoding of a byte string [reverseHex] produces the
    hex encoding of the bytes in reverse order: it turns the little-endian
    digits of a number into its big-endian digits. *)
Theorem reverseHex_reverses_bytes (bs : list byte) :
  reverseHex (EncodeToString bs) = EncodeToString (rev bs).
Proof.
  rewrite reverseHex_even by apply EncodeToString_even.
  apply revPairs_EncodeToString.
Qed.

(** X14.  On a string of even length [reverseHex] keeps the length and is
    its own inverse; on a string of odd length it drops the first
    character and reverses the pairs of the rest. *)
Theorem reverseHex_involutive (s : list byte) (c : byte) :
  Nat.even (length s) = true ->
  reverseHex (reverseHex s) = s
  /\ length (reverseHex s) = length s
  /\ reverseHex (c :: s) = reverseHex s.
Proof.
  intros He. rewrite (reverseHex_odd c s He), !(reverseHex_even s He).
  rewrite reverseHex_even by (rewrite revPairs_length; exact He).
  split; [apply revPairs_involutive; exact He|].
  split; [apply revPairs_length; exact He | reflexivity].
Qed.

Lemma reverseHex_involutive_witness :
  reverseHex (reverseHex [x31; x32; x61; x62]) = [x31; x32; x61; x62]
  /\ length (reverseHex [x31; x32; x61; x62]) = length [x31; x32; x61; x62]
  /\ reverseHex (x39 :: [x31; x32; x61; x62])
     = reverseHex [x31; x32; x61; x62].
Proof.
  apply (reverseHex_involutive [x31; x32; x61; x62] x39). reflexivity.
Defined.

Lemma reverseHex_EncodeToString (bs : list byte) :
  reverseHex (EncodeToString bs) = EncodeToString (rev bs).
Proof.
  rewrite reverseHex_even by apply EncodeToString_even.
  apply revPairs_EncodeToString.
Qed.

Lemma nibbles (b : byte) :
  0 <= Z.shiftr (byte_val b) 4 < 16
  /\ 0 <= Z.land (byte_val b) 15 < 16
  /\ byte_val b = 16 * Z.shiftr (byte_val b) 4 + Z.land (byte_val b) 15.
Proof.
  pose proof (byte_val_range b) as Hb.
  rewrite Z.shiftr_div_pow2 by lia. change (2 ^ 4) with 16.
  change 15 with (Z.ones 4). rewrite Z.land_ones by lia. change (2 ^ 4) with 16.
  pose proof (Z.div_mod (byte_val b) 16 ltac:(lia)).
  pose proof (Z.mod_pos_bound (byte_val b) 16 ltac:(lia)).
  split; [split; [apply Z.div_pos; lia | apply Z.div_lt_upper_bound; lia]|].
  split; lia.
Qed.

Lemma digitVal_hextable (k : Z) :
  0 <= k < 16 ->
  digitVal (nth (Z.to_nat k) hextable x00) = Some k
  /\ Byte.eqb (nth (Z.to_nat k) hextable x00) x2b = false
  /\ Byte.eqb (nth (Z.to_nat k) hextable x00) x2d = false.
Proof.
  intros Hk. rewrite <- (Z2Nat.id k) at 2 by lia.
  assert (Hm : (Z.to_nat k < 16)%nat) by lia.
  revert Hm. generalize (Z.to_nat k). intros m Hm.
  do 16 (destruct m as [|m]; [vm_compute; repeat split|]). lia.
Qed.

(** Two hex digits read as one more byte of the number. *)
Lemma parseUintLoop_byte (bitSize : Z) (b : byte) (rest : list byte) (n : Z) :
  0 <= n -> n * 256 + 255 < 2 ^ 60 -> n * 256 + 255 <= 2 ^ bitSize - 1 ->
  parseUintLoop bitSize (EncodeToString [b] ++ rest) n
  = parseUintLoop bitSize rest (n * 256 + byte_val b).
Proof.
  intros Hn H60 Hmax.
  destruct (nibbles b) as (Hhi & Hlo & Hv).
  destruct (digitVal_hextable _ Hhi) as (Dhi & _).
  destruct (digitVal_hextable _ Hlo) as (Dlo & _).
  cbn [EncodeToString flat_map app parseUintLoop]. rewrite Dhi.
  set (hi := Z.shiftr (byte_val b) 4) in *.
  set (lo := Z.land (byte_val b) 15) in *.
  change (2 ^ 64 / 16) with (2 ^ 60).
  destruct (Z.geb_spec hi 16); [lia|].
  destruct (Z.geb_spec n (2 ^ 60)); [lia|].
  destruct (Z.gtb_spec (n * 16 + hi) (2 ^ bitSize - 1)); [lia|].
  rewrite Dlo.
  destruct (Z.geb_spec lo 16); [lia|].
  destruct (Z.geb_spec (n * 16 + hi) (2 ^ 60)); [lia|].
  destruct (Z.gtb_spec ((n * 16 + hi) * 16 + lo) (2 ^ bitSize - 1)); [lia|].
  f_equal. lia.
Qed.

Lemma ParseInt16_byte (b : byte) :
  ParseInt16 (EncodeToString [b]) = byte_val b.
Proof.
  pose proof (byte_val_range b) as Hb.
  destruct (nibbles b) as (Hhi & _ & _).
  destruct (digitVal_hextable _ Hhi) as (_ & Hplus & Hminus).
  pose proof (parseUintLoop_byte 64 b [] 0 ltac:(lia) ltac:(cbn; lia)
                ltac:(cbn; lia)) as Hp.
  rewrite app_nil_r in Hp. cbn [parseUintLoop] in Hp.
  unfold ParseInt16.
  change (EncodeToString [b])
    with [nth (Z.to_nat (Z.shiftr (byte_val b) 4)) hextable x00;
          nth (Z.to_nat (Z.land (byte_val b) 15)) hextable x00] in *.
  cbv beta iota zeta. rewrite Hplus, Hminus. cbn [orb negb andb].
  cbv beta iota. rewrite Hp.
  change (0 * 256 + byte_val b) with (byte_val b).
  destruct (Z.geb_spec (byte_val b) (2 ^ 63)); [|reflexivity].
  assert (2 ^ 63 > 255) by (cbn; lia). lia.
Qed.

Lemma ParseUint16_word (b0 b1 b2 b3 : byte) :
  ParseUint16 32 (EncodeToString [b3; b2; b1; b0]) = Uint32 [b0; b1; b2; b3].
Proof.
  pose proof (byte_val_range b0). pose proof (byte_val_range b1).
  pose proof (byte_val_range b2). pose proof (byte_val_range b3).
  unfold ParseUint16.
  change (EncodeToString [b3; b2; b1; b0])
    with (nth (Z.to_nat (Z.shiftr (byte_val b3) 4)) hextable x00
          :: nth (Z.to_nat (Z.land (byte_val b3) 15)) hextable x00
          :: EncodeToString [b2; b1; b0]).
  cbv beta iota.
  change (nth (Z.to_nat (Z.shiftr (byte_val b3) 4)) hextable x00
          :: nth (Z.to_nat (Z.land (byte_val b3) 15)) hextable x00
          :: EncodeToString [b2; b1; b0])
    with (EncodeToString [b3] ++ EncodeToString [b2] ++ EncodeToString [b1]
          ++ EncodeToString [b0] ++ []).
  assert (P60 : 2 ^ 60 = 1152921504606846976) by reflexivity.
  assert (P32 : 2 ^ 32 = 4294967296) by reflexivity.
  rewrite !parseUintLoop_byte by lia.
  cbn [parseUintLoop]. unfold Uint32. lia.
Qed.

Lemma Uint32_range (s : list byte) : 0 <= Uint32 s < 4294967296.
Proof.
  unfold Uint32. destruct s as [|b0 [|b1 [|b2 [|b3 l]]]]; try lia.
  pose proof (byte_val_range b0). pose proof (byte_val_range b1).
  pose proof (byte_val_range b2). pose proof (byte_val_range b3). lia.
Qed.

(** A record of at least 39 bytes, read through its hex encoding. *)
Lemma parseAttendanceRecord_long (rec : list byte) :
  39 <= len rec ->
  parseAttendanceRecord rec
  = if Uint16 (slice 2 4 rec) =? 0 then None
    else Some (mkAttendance (Uint16 (slice 2 4 rec))
                 (trimRightByte x00 (slice 4 13 rec))
                 (byte_val (nth 28 rec x00))
                 (decodeTime (Uint32 (slice 29 33 rec)))
                 (byte_val (nth 33 rec x00))).
Proof.
  intros H. unfold parseAttendanceRecord.
  destruct (Z.ltb_spec (len rec) 39); [lia|].
  assert (Hl : (39 <= length rec)%nat) by (unfold len in H; lia).
  do 39 (destruct rec as [|? rec]; [cbn [length] in Hl; lia|]).
  clear. unfold slice. cbn [skipn firstn Nat.sub nth].
  cbn [EncodeToString flat_map app]. unfold len at 1. cbn [length].
  change (Z.of_nat 78 <? 68) with false. cbv iota.
  cbn [skipn firstn].
  match goal with
  | |- context [reverseHex ?l] =>
      match l with
      | [nth (Z.to_nat (Z.shiftr (byte_val ?x0) 4)) hextable x00; _;
         nth (Z.to_nat (Z.shiftr (byte_val ?x1) 4)) hextable x00; _;
         nth (Z.to_nat (Z.shiftr (byte_val ?x2) 4)) hextable x00; _;
         nth (Z.to_nat (Z.shiftr (byte_val ?x3) 4)) hextable x00; _] =>
          change l with (EncodeToString [x0; x1; x2; x3])
      end
  end.
  rewrite reverseHex_EncodeToString. cbn [rev app].
  rewrite ParseUint16_word.
  repeat match goal with
  | |- context [[nth (Z.to_nat (Z.shiftr (byte_val ?x) 4)) hextable x00;
                 nth (Z.to_nat (Z.land (byte_val ?x) 15)) hextable x00]] =>
      change [nth (Z.to_nat (Z.shiftr (byte_val x) 4)) hextable x00;
              nth (Z.to_nat (Z.land (byte_val x) 15)) hextable x00]
        with (EncodeToString [x])
  end.
  rewrite !ParseInt16_byte.
  unfold u32. rewrite Z.mod_small by apply Uint32_range.
  unfold Uint16 at 1 2.
  match goal with
  | |- context [byte_val ?hi * 256 + byte_val ?lo =? 0] =>
      replace (byte_val hi * 256 + byte_val lo)
        with (byte_val lo + 256 * byte_val hi) by lia
  end.
  reflexivity.
Qed.

(** X15.  The hex detour of [parseAttendanceRecord] reads the record as
    plain little-endian fields: on a record of at least 39 bytes the uid is
    the 16-bit word at bytes 2..4, the user id is bytes 4..13 without their
    trailing NULs, the state is byte 28, the time is [decodeTime] of the
    32-bit word at bytes 29..33 and the type is byte 33; a record whose uid
    is 0 is dropped, and so is a record of fewer than 39 bytes. *)
Theorem parseAttendanceRecord_fields (rec : list byte) :
  (len rec < 39 -> parseAttendanceRecord rec = None)
  /\ (39 <= len rec ->
      parseAttendanceRecord rec
      = if Uint16 (slice 2 4 rec) =? 0 then None
        else Some (mkAttendance (Uint16 (slice 2 4 rec))
                     (trimRightByte x00 (slice 4 13 rec))
                     (byte_val (nth 28 rec x00))
                     (decodeTime (Uint32 (slice 29 33 rec)))
                     (byte_val (nth 33 rec x00)))).
Proof.
  split.
  - intros H. unfold parseAttendanceRecord.
    destruct (Z.ltb_spec (len rec) 39); [reflexivity | lia].
  - apply parseAttendanceRecord_long.
Qed.

Lemma parseAttendanceRecord_fields_witness :
  parseAttendanceRecord sampleRecord
  = Some (mkAttendance 258 [x34; x32] 1 (decodeTime 168496141) 4).
Proof.
  refine (eq_trans (proj2 (parseAttendanceRecord_fields sampleRecord) _) _).
  - vm_compute. discriminate.
  - vm_compute. reflexivity.
Defined.

(** ** The record loops *)

Lemma recordLoop_spec {A} (parse : list byte -> option A) (size : nat)
    (data : list byte) :
  (0 < size)%nat ->
  forall count fuel off records,
    (count <= fuel)%nat ->
    (off + count * size <= length data)%nat ->
    (length data < off + (count + 1) * size)%nat ->
    recordLoop parse (Z.of_nat size) fuel (Z.of_nat off) data records
    = records
      ++ flat_map (fun r => keep (parse r))
           (recordsOf size count (skipn off data)).
Proof.
  intros Hsize. induction count as [|count IH];
    intros fuel off records Hf Hlo Hhi.
  - cbn [recordsOf flat_map]. rewrite app_nil_r.
    destruct fuel as [|fuel]; [reflexivity|]. cbn [recordLoop].
    destruct (Z.leb_spec (Z.of_nat off + Z.of_nat size) (len data));
      [unfold len in *; lia | reflexivity].
  - destruct fuel as [|fuel]; [lia|]. cbn [recordLoop].
    destruct (Z.leb_spec (Z.of_nat off + Z.of_nat size) (len data));
      [|unfold len in *; lia].
    assert (Hs : slice (Z.to_nat (Z.of_nat off))
                   (Z.to_nat (Z.of_nat off + Z.of_nat size)) data
                 = firstn size (skipn off data)).
    { unfold slice. rewrite Nat2Z.id.
      replace (Z.to_nat (Z.of_nat off + Z.of_nat size) - off)%nat with size
        by lia. reflexivity. }
    rewrite Hs. cbn [recordsOf flat_map].
    replace (Z.of_nat off + Z.of_nat size) with (Z.of_nat (off + size)) by lia.
    rewrite skipn_skipn, (Nat.add_comm size off).
    destruct (parse (firstn size (skipn off data))) as [r|];
      rewrite IH by lia; cbn [keep app].
    + rewrite <- app_assoc. reflexivity.
    + reflexivity.
Qed.

Lemma recordsOf_sizes (size : nat) :
  forall count data, (count * size <= length data)%nat ->
    Forall (fun r => length r = size) (recordsOf size count data).
Proof.
  induction count as [|count IH]; intros data H; cbn [recordsOf].
  - constructor.
  - constructor.
    + rewrite length_firstn. lia.
    + apply IH. rewrite length_skipn. lia.
Qed.

Lemma recordsOf_length (size count : nat) (data : list byte) :
  length (recordsOf size count data) = count.
Proof.
  revert data. induction count as [|count IH]; intros data; cbn [recordsOf length];
    [reflexivity|]. rewrite IH. reflexivity.
Qed.

Lemma record_count (n size : nat) :
  (0 < size)%nat ->
  let count := Z.to_nat (Z.of_nat n / Z.of_nat size) in
  (count * size <= n)%nat /\ (n < (count + 1) * size)%nat /\ (count <= n)%nat.
Proof.
  intros Hs count.
  pose proof (Z.div_mod (Z.of_nat n) (Z.of_nat size) ltac:(lia)) as E.
  pose proof (Z.mod_pos_bound (Z.of_nat n) (Z.of_nat size) ltac:(lia)) as B.
  assert (Hq : 0 <= Z.of_nat n / Z.of_nat size) by (apply Z.div_pos; lia).
  assert (Hc : Z.of_nat count = Z.of_nat n / Z.of_nat size)
    by (subst count; lia).
  nia.
Qed.

Lemma parseUserRecord_all (rs : list (list byte)) :
  Forall (fun r => length r = 72%nat) rs ->
  length (flat_map (fun r => keep (parseUserRecord r)) rs) = length rs.
Proof.
  induction 1 as [|r rs Hr _ IH]; [reflexivity|].
  cbn [flat_map length]. rewrite length_app, IH.
  unfold parseUserRecord, len. rewrite Hr. reflexivity.
Qed.

Lemma usersOf_long (allData : list byte) :
  8 < len allData ->
  usersOf allData
  = flat_map (fun r => keep (parseUserRecord r))
      (recordsOf 72 (Z.to_nat ((len allData - 8) / 72))
         (slice_from 8 allData))
  /\ length (usersOf allData) = Z.to_nat ((len allData - 8) / 72).
Proof.
  set (count := Z.to_nat ((len allData - 8) / 72)).
  intros H. unfold usersOf.
  destruct (Z.leb_spec (len allData) 8); [lia|].
  set (data := slice_from 8 allData).
  assert (Hd : Z.of_nat (length data) = len allData - 8).
  { subst data. unfold slice_from, len in *. rewrite length_skipn. lia. }
  assert (Hcount : count = Z.to_nat (Z.of_nat (length data) / Z.of_nat 72)).
  { subst count. rewrite Hd. reflexivity. }
  destruct (record_count (length data) 72 ltac:(lia)) as (Hlo & Hhi & Hfuel).
  rewrite <- Hcount in Hlo, Hhi, Hfuel.
  pose proof (recordLoop_spec parseUserRecord 72 data ltac:(lia) count
                (length data) 0 [] Hfuel ltac:(lia) ltac:(lia)) as Hloop.
  cbn [app skipn] in Hloop. change (Z.of_nat 72) with 72 in Hloop.
  change (Z.of_nat 0) with 0 in Hloop. rewrite Hloop.
  split; [reflexivity|].
  rewrite parseUserRecord_all by (apply recordsOf_sizes; exact Hlo).
  apply recordsOf_length.
Qed.

(** X16.  [GetUsers] turns a result of more than eight bytes into one user
    for every full 72-byte record after the first eight bytes, in order;
    no record is dropped, the bytes left over after the last full record
    are ignored, and a result of eight bytes or fewer gives no users. *)
Theorem usersOf_records (allData : list byte) :
  let count := Z.to_nat ((len allData - 8) / 72) in
  (len allData <= 8 -> usersOf allData = [])
  /\ (8 < len allData ->
      usersOf allData
      = flat_map (fun r => keep (parseUserRecord r))
          (recordsOf 72 count (slice_from 8 allData))
      /\ length (usersOf allData) = count).
Proof.
  intros count. split.
  - intros H. unfold usersOf.
    destruct (Z.leb_spec (len allData) 8); [reflexivity | lia].
  - apply usersOf_long.
Qed.

Lemma usersOf_records_witness :
  usersOf (repeat x00 8 ++ repeat x01 150)
  = flat_map (fun r => keep (parseUserRecord r))
      (recordsOf 72 2 (repeat x01 150))
  /\ length (usersOf (repeat x00 8 ++ repeat x01 150)) = 2%nat.
Proof.
  apply (usersOf_records (repeat x00 8 ++ repeat x01 150)).
  vm_compute. reflexivity.
Defined.

Lemma keep_flat_map_length {A} (f : list byte -> option A)
    (rs : list (list byte)) :
  (length (flat_map (fun r => keep (f r)) rs) <= length rs)%nat.
Proof.
  induction rs as [|r rs IH]; [cbn; lia|].
  cbn [flat_map length]. rewrite length_app.
  destruct (f r); cbn [keep length]; lia.
Qed.

Lemma attendancesOf_long (allData : list byte) :
  10 < len allData ->
  attendancesOf allData
  = flat_map (fun r => keep (parseAttendanceRecord r))
      (recordsOf 40 (Z.to_nat ((len allData - 10) / 40))
         (slice_from 10 allData)).
Proof.
  set (count := Z.to_nat ((len allData - 10) / 40)).
  intros H. unfold attendancesOf.
  destruct (Z.leb_spec (len allData) 8); [lia|].
  destruct (Z.gtb_spec (len allData) 10); [|lia].
  set (data := slice_from 10 allData).
  assert (Hd : Z.of_nat (length data) = len allData - 10).
  { subst data. unfold slice_from, len in *. rewrite length_skipn. lia. }
  assert (Hcount : count = Z.to_nat (Z.of_nat (length data) / Z.of_nat 40)).
  { subst count. rewrite Hd. reflexivity. }
  destruct (record_count (length data) 40 ltac:(lia)) as (Hlo & Hhi & Hfuel).
  rewrite <- Hcount in Hlo, Hhi, Hfuel.
  pose proof (recordLoop_spec parseAttendanceRecord 40 data ltac:(lia) count
                (length data) 0 [] Hfuel ltac:(lia) ltac:(lia)) as Hloop.
  cbn [app skipn] in Hloop. change (Z.of_nat 40) with 40 in Hloop.
  change (Z.of_nat 0) with 0 in Hloop. exact Hloop.
Qed.

(** X17.  [GetAttendances] skips the first ten bytes of a result of more
    than ten bytes and parses the full 40-byte records that follow, in
    order; a record whose uid is 0 is left out without notice, so every
    record returned has a uid in 1..65535 and there are at most as many as
    full records; a result of ten bytes or fewer gives no records. *)
Theorem attendancesOf_records (allData : list byte) :
  let count := Z.to_nat ((len allData - 10) / 40) in
  (len allData <= 10 -> attendancesOf allData = [])
  /\ (10 < len allData ->
      attendancesOf allData
      = flat_map (fun r => keep (parseAttendanceRecord r))
          (recordsOf 40 count (slice_from 10 allData))
      /\ (length (attendancesOf allData) <= count)%nat
      /\ (forall a, In a (attendancesOf allData) -> 1 <= att_UID a <= 65535)).
Proof.
  intros count. split.
  - intros H. unfold attendancesOf.
    destruct (Z.leb_spec (len allData) 8); [reflexivity|].
    destruct (Z.gtb_spec (len allData) 10); [lia|].
    pose proof (recordLoop_spec parseAttendanceRecord 40 allData ltac:(lia)
                  0 (length allData) 0 [] ltac:(lia) ltac:(lia)
                  ltac:(unfold len in *; lia)) as Hloop.
    exact Hloop.
  - intros H. rewrite (attendancesOf_long allData H). fold count.
    set (data := slice_from 10 allData).
    assert (Hlo : (count * 40 <= length data)%nat).
    { assert (Hd : Z.of_nat (length data) = len allData - 10).
      { subst data. unfold slice_from, len in *. rewrite length_skipn. lia. }
      destruct (record_count (length data) 40 ltac:(lia)) as (Hlo & _).
      replace count
        with (Z.to_nat (Z.of_nat (length data) / Z.of_nat 40))
        by (subst count; rewrite Hd; reflexivity).
      exact Hlo. }
    split; [reflexivity|]. split.
    + rewrite <- (recordsOf_length 40 count data) at 2.
      apply keep_flat_map_length.
    + intros a Ha. apply in_flat_map in Ha as (r & Hr & Hk).
      pose proof (recordsOf_sizes 40 count data Hlo) as Hall.
      rewrite Forall_forall in Hall. specialize (Hall r Hr).
      rewrite parseAttendanceRecord_long in Hk by (unfold len; lia).
      destruct (Z.eqb_spec (Uint16 (slice 2 4 r)) 0) as [|Hne];
        [contradiction|].
      destruct Hk as [<-|[]]. cbn [att_UID].
      pose proof (Uint16_range (slice 2 4 r)) as Hu. unfold is_u16 in Hu. lia.
Qed.

Lemma attendancesOf_records_witness :
  attendancesOf (repeat x00 10 ++ sampleRecord ++ repeat x00 45)
  = flat_map (fun r => keep (parseAttendanceRecord r))
      (recordsOf 40 2 (sampleRecord ++ repeat x00 45))
  /\ (length (attendancesOf (repeat x00 10 ++ sampleRecord ++ repeat x00 45))
      <= 2)%nat
  /\ (forall a,
        In a (attendancesOf (repeat x00 10 ++ sampleRecord ++ repeat x00 45)) ->
        1 <= att_UID a <= 65535).
Proof.
  apply (attendancesOf_records (repeat x00 10 ++ sampleRecord ++ repeat x00 45)).
  vm_compute. reflexivity.
Defined.

(** ** Device options *)

Lemma indexByte_first (c : byte) (name rest : list byte) :
  ~ In c name -> indexByte c (name ++ c :: rest) = Z.of_nat (length name).
Proof.
  induction name as [|b name IH]; intros Hn.
  - cbn [app indexByte length].
    destruct (Byte.eqb c c) eqn:E; [reflexivity|].
    apply Byte.eqb_false in E. contradiction.
  - cbn [app indexByte]. destruct (Byte.eqb b c) eqn:E.
    + apply Byte.byte_dec_bl in E. subst. exfalso. apply Hn. left. reflexivity.
    + rewrite IH by (intros H; apply Hn; right; exact H).
      destruct (Z.ltb_spec (Z.of_nat (length name)) 0); [lia|].
      cbn [length]. lia.
Qed.

(** X18.  A device option comes back as what follows the first "=" of the
    response, without its trailing NULs: for a response of ack-ok or
    ack-data whose data is a name free of "=", then "=", then a value that
    does not end in NUL, then any number of NULs, [getDeviceOption] returns
    the value, further "=" included.  The name in the response is not
    compared with the key. *)
Theorem getDeviceOption_value (key resp name value : list byte)
    (z z' : ZKTeco) (code ck sid rid : Z) (n : nat) :
  command CMD_DEVICE key "general" z = (Ok resp, z') ->
  resp = serialize code ck sid rid (name ++ [x3d] ++ value ++ repeat x00 n) ->
  is_u16 code -> is_u16 ck -> is_u16 sid -> is_u16 rid ->
  code = CMD_ACK_OK \/ code = CMD_ACK_DATA ->
  ~ In x3d name ->
  last value x01 <> x00 ->
  getDeviceOption key z = (Done value, z').
Proof.
  intros Hcmd -> Hcode Hck Hsid Hrid Hack Hname Hlast.
  unfold getDeviceOption. rewrite Hcmd.
  rewrite parsePacket_serialize by assumption. cbn [Command Data].
  assert (Hc : negb (code =? CMD_ACK_OK) && negb (code =? CMD_ACK_DATA) = false).
  { destruct Hack as [-> | ->]; reflexivity. }
  rewrite Hc. cbv zeta. cbn [app].
  rewrite (indexByte_first x3d name _ Hname).
  destruct (Z.geb_spec (Z.of_nat (length name)) 0); [|lia].
  replace (Z.to_nat (Z.of_nat (length name) + 1)) with (length name + 1)%nat
    by lia.
  unfold slice_from.
  replace (name ++ x3d :: value ++ repeat x00 n)
    with ((name ++ [x3d]) ++ value ++ repeat x00 n)
    by (rewrite <- app_assoc; reflexivity).
  replace (length name + 1)%nat with (length (name ++ [x3d]))
    by (rewrite length_app; reflexivity).
  rewrite skipn_app, skipn_all, Nat.sub_diag. cbn [skipn app].
  rewrite (trimRightByte_padding x00 x01 value n ltac:(discriminate) Hlast).
  reflexivity.
Qed.

Lemma getDeviceOption_value_witness :
  getDeviceOption [x7e; x53; x4e] optionClient
  = (Done [x41; x3d; x31],
     mkZKTeco "udp"
       (Some (mkConn []
                [fst (createHeader CMD_DEVICE 42 65534 [x7e; x53; x4e])] None))
       42 0 optionReply []).
Proof.
  apply (getDeviceOption_value [x7e; x53; x4e] optionReply [x7e; x53; x4e]
           [x41; x3d; x31] optionClient _ CMD_ACK_OK 0 42 0 2).
  - reflexivity.
  - reflexivity.
  - vm_compute. split; congruence.
  - vm_compute. split; congruence.
  - vm_compute. split; congruence.
  - vm_compute. split; congruence.
  - left. reflexivity.
  - intros [H|[H|[H|[]]]]; discriminate.
  - discriminate.
Defined.

(** ** The event loop: the mask and the deadline *)

Lemma land_low16 (t mask : Z) :
  0 <= t < 65536 -> Z.land t mask = Z.land t (mask mod 65536).
Proof.
  intros Ht. change 65536 with (2 ^ 16) in *.
  apply Z.bits_inj'. intros n Hn. rewrite !Z.land_spec.
  destruct (Z.lt_ge_cases n 16).
  - rewrite Z.mod_pow2_bits_low by lia. reflexivity.
  - rewrite <- (Z.mod_small t (2 ^ 16)) by exact Ht.
    rewrite Z.mod_pow2_bits_high by lia. reflexivity.
Qed.

(** X19.  Only the low sixteen bits of the event mask take part in the
    filter: a mask and its residue modulo 65536 accept the same frames
    (the registration sends all 32 bits of the mask to the device). *)
Theorem acceptFrame_low_bits (eventMask : Z) (payload : list byte) :
  acceptFrame eventMask payload = acceptFrame (eventMask mod 65536) payload.
Proof.
  unfold acceptFrame.
  destruct (len payload <? 4); [reflexivity|].
  destruct (negb (Uint16 (slice 0 2 payload) =? CMD_REG_EVENT)); [reflexivity|].
  destruct (len payload <? 6); [reflexivity|].
  rewrite (land_low16 _ eventMask) by apply Uint16_range.
  reflexivity.
Qed.

(** X20.  The polling loop returns normally only on the deadline: a run
    that ends without error has had its deadline test answer true, so with
    the overall timeout disabled (the test always false) the loop never
    returns without an error. *)
Theorem pollEvents_returns_on_deadline (clock : list bool) (eventMask : Z) :
  forall log z,
    fst (fst (pollEvents clock eventMask log z)) = Ok tt -> In true clock.
Proof.
  induction clock as [|expired clock IH]; intros log z H.
  - discriminate.
  - destruct expired; [left; reflexivity|]. right.
    destruct (pollReceive z) as [[payload|e| |] z1] eqn:Er.
    + rewrite (pollEvents_frame _ _ _ _ _ _ Er) in H. eapply IH. exact H.
    + unfold pollReceive in Er. cbn [pollEvents] in H. rewrite Er in H.
      destruct (timedOut e); [eapply IH; exact H | discriminate].
    + unfold pollReceive in Er. cbn [pollEvents] in H. rewrite Er in H.
      discriminate.
    + unfold pollReceive in Er. cbn [pollEvents] in H. rewrite Er in H.
      discriminate.
Qed.

Lemma pollEvents_returns_on_deadline_witness :
  In true [false; false; false; true].
Proof.
  apply (pollEvents_returns_on_deadline [false; false; false; true] 1
           (mkLog [] [])
           (mkZKTeco "udp"
              (Some (mkConn [ReadOk eventUnlock] [] None)) 42 0 [] [])).
  vm_compute. reflexivity.
Defined.

(** X21.  A quiet line.  On a connected client with nothing to read and,
    over TCP, no complete frame buffered, every poll times out: however
    many polls the deadline allows, the loop makes no call to the handler,
    leaves the client as it was and returns normally at the deadline. *)
Theorem pollEvents_quiet_line (n : nat) (eventMask : Z) (log : pollLog)
    (z : ZKTeco) (c : Conn) :
  conn z = Some c ->
  incoming c = [] ->
  snd (extractTCPPacket (tcpBuffer z)) = false ->
  pollEvents (repeat false n ++ [true]) eventMask log z = (Ok tt, log, z).
Proof.
  intros Hc Hi Hx. induction n as [|n IH]; [reflexivity|].
  cbn [repeat app pollEvents].
  assert (Hr : (if IsTCP z then recvTCP z else recvUDP z)
               = (Err (ErrNet NetTimeout), z)).
  { destruct (IsTCP z).
    - unfold recvTCP. rewrite recvTCPLoop_step.
      destruct (extractTCPPacket (tcpBuffer z)) as [[p r] ok].
      cbn [snd] in Hx. subst ok. unfold connRead. rewrite Hc, Hi. reflexivity.
    - rewrite recvUDP_eq. unfold connRead. rewrite Hc, Hi. reflexivity. }
  rewrite Hr. cbn [timedOut isTimeout]. exact IH.
Qed.

Lemma pollEvents_quiet_line_witness :
  pollEvents (repeat false 5 ++ [true]) 1 (mkLog [] []) quietClient
  = (Ok tt, mkLog [] [], quietClient).
Proof.
  apply (pollEvents_quiet_line 5 1 (mkLog [] []) quietClient
           (mkConn [] [] None)); reflexivity.
Defined.

(** ** Connecting and disconnecting *)

(** An exchange whose send and receive succeed, step by step. *)
Lemma command_run (cmd : Z) (data resp : list byte) (cmdType : string)
    (z z1 z2 : ZKTeco) :
  let hdr := createHeader cmd (sessionID z) (replyID (primed z)) data in
  sendData (fst hdr) (primed z) = (Ok tt, z1) ->
  recvData z1 = (Ok resp, z2) ->
  sessionID z2 = sessionID z
  /\ command cmd data cmdType z
     = let z3 := set_lastData resp (set_replyID (snd hdr) z2) in
       if String.eqb cmdType "data" then (Ok resp, z3)
       else if negb (sessionID z =? 0) && (len resp >=? 6) then
         if negb (Uint16 (slice 4 6 resp) =? sessionID z)
         then (Err (ErrSessionMismatch (sessionID z)
                      (Uint16 (slice 4 6 resp))), z3)
         else (Ok resp, z3)
       else (Ok resp, z3).
Proof.
  intros hdr Hs Hr.
  destruct (primed_session z) as (Hs0 & _).
  destruct (sendData_keeps _ _ _ _ Hs) as (_ & Hs1 & _).
  destruct (recvData_keeps _ _ _ Hr) as (_ & Hs2 & _).
  assert (Hsid : sessionID z2 = sessionID z) by congruence.
  split; [exact Hsid|].
  rewrite command_unfold. rewrite Hs0. fold hdr. cbv zeta.
  rewrite Hs, Hr. cbn [sessionID set_lastData set_replyID].
  rewrite Hsid. reflexivity.
Qed.

Lemma primed_dialed (c : Conn) (z : ZKTeco) :
  sessionID (dialed c z) = 0
  /\ replyID (primed (dialed c z)) = connectReplyID z.
Proof.
  split; [reflexivity|]. unfold primed, connectReplyID, dialed.
  cbn [lastData set_tcpBuffer set_replyID set_sessionID set_conn].
  destruct (len (lastData z) >=? 8); reflexivity.
Qed.

(** X22.  What [Connect] takes for an answer.  When the first response to
    the connect request has at least eight bytes and a command code other
    than "unauthenticated", [Connect] succeeds and adopts the session id of
    that response, whatever the code (ack-error included), checksum and
    replyID are: the exchange is made with session id 0, under which
    [command] compares no session.  The request is built with replyID
    65534, or with the replyID echoed in a response still on record. *)
Theorem Connect_adopts_session (password : Z) (c : Conn)
    (z z1 z2 : ZKTeco) (resp : list byte) :
  let hdr := createHeader CMD_CONNECT 0 (connectReplyID z) [] in
  sendData (fst hdr) (primed (dialed c z)) = (Ok tt, z1) ->
  recvData z1 = (Ok resp, z2) ->
  8 <= len resp ->
  Uint16 (slice 0 2 resp) <> CMD_ACK_UNAUTH ->
  Connect password (inl c) z
  = (Done tt,
     set_sessionID (Uint16 (slice 4 6 resp))
       (set_lastData resp (set_replyID (snd hdr) z2)),
     false).
Proof.
  intros hdr Hs Hr Hlen Hcode.
  destruct (primed_dialed c z) as [Hsid0 Hrid].
  unfold Connect. fold (dialed c z).
  pose proof (command_run CMD_CONNECT [] resp "general" (dialed c z) z1 z2)
    as Hrun.
  cbv zeta in Hrun. rewrite Hsid0, Hrid in Hrun. fold hdr in Hrun.
  destruct (Hrun Hs Hr) as [_ Hc]. rewrite Hc.
  cbn [String.eqb Ascii.eqb Bool.eqb Z.eqb negb andb].
  rewrite (parsePacket_long resp Hlen). cbn [Command SessionID].
  destruct (Z.eqb_spec (Uint16 (slice 0 2 resp)) CMD_ACK_UNAUTH);
    [contradiction | reflexivity].
Qed.

Lemma Connect_adopts_session_witness :
  Connect 0 (inl grumpyDevice) freshClient
  = (Done tt,
     set_sessionID 9
       (set_lastData (serialize CMD_ACK_ERROR 0 9 0 [])
          (set_replyID (snd (createHeader CMD_CONNECT 0 65534 []))
             (mkZKTeco "udp"
                (Some (mkConn [] [fst (createHeader CMD_CONNECT 0 65534 [])]
                         None))
                0 65534 [] []))),
     false).
Proof.
  apply (Connect_adopts_session 0 grumpyDevice freshClient
           (mkZKTeco "udp"
              (Some (mkConn [ReadOk (serialize CMD_ACK_ERROR 0 9 0 [])]
                       [fst (createHeader CMD_CONNECT 0 65534 [])] None))
              0 65534 [] [])
           (mkZKTeco "udp"
              (Some (mkConn [] [fst (createHeader CMD_CONNECT 0 65534 [])]
                       None))
              0 65534 [] [])
           (serialize CMD_ACK_ERROR 0 9 0 [])).
  - reflexivity.
  - reflexivity.
  - vm_compute. discriminate.
  - vm_compute. discriminate.
Defined.

(** X23.  Authentication.  When the first response is "unauthenticated"
    with session id [s], [Connect] sends under that session the
    auth command with the key [makeCommKey password s], primed with the
    replyID the first response echoed; a second response that carries the
    session id makes [Connect] succeed if its command is ack-ok and fail
    with the auth error naming its command, the connection closed,
    otherwise. *)
Theorem Connect_authenticates (password : Z) (c : Conn)
    (z z1 z2 z4 z5 : ZKTeco) (resp resp2 : list byte) :
  let hdr := createHeader CMD_CONNECT 0 (connectReplyID z) [] in
  let s := Uint16 (slice 4 6 resp) in
  let z3 := set_sessionID s (set_lastData resp (set_replyID (snd hdr) z2)) in
  let hdr2 := createHeader CMD_ACK_AUTH s (Uint16 (slice 6 8 resp))
                (makeCommKey password s) in
  let zf := set_lastData resp2 (set_replyID (snd hdr2) z5) in
  sendData (fst hdr) (primed (dialed c z)) = (Ok tt, z1) ->
  recvData z1 = (Ok resp, z2) ->
  8 <= len resp ->
  Uint16 (slice 0 2 resp) = CMD_ACK_UNAUTH ->
  sendData (fst hdr2) (primed z3) = (Ok tt, z4) ->
  recvData z4 = (Ok resp2, z5) ->
  8 <= len resp2 ->
  Uint16 (slice 4 6 resp2) = s ->
  Connect password (inl c) z
  = if Uint16 (slice 0 2 resp2) =? CMD_ACK_OK
    then (Done tt, zf, false)
    else (Failed (AuthFailed (Uint16 (slice 0 2 resp2))), zf, true).
Proof.
  intros hdr s z3 hdr2 zf Hs Hr Hlen Hcode Hs2 Hr2 Hlen2 Hsess.
  destruct (primed_dialed c z) as [Hsid0 Hrid].
  unfold Connect. fold (dialed c z).
  pose proof (command_run CMD_CONNECT [] resp "general" (dialed c z) z1 z2)
    as Hrun.
  cbv zeta in Hrun. rewrite Hsid0, Hrid in Hrun. fold hdr in Hrun.
  destruct (Hrun Hs Hr) as [_ Hc]. rewrite Hc.
  cbn [String.eqb Ascii.eqb Bool.eqb Z.eqb negb andb].
  rewrite (parsePacket_long resp Hlen). cbn [Command SessionID].
  fold s. fold z3. rewrite Hcode. cbn [Z.eqb Pos.eqb CMD_ACK_UNAUTH].
  change (sessionID z3) with s.
  assert (Hp : replyID (primed z3) = Uint16 (slice 6 8 resp)).
  { unfold primed. subst z3.
    cbn [lastData set_sessionID set_lastData set_replyID].
    destruct (Z.geb_spec (len resp) 8); [reflexivity | lia]. }
  pose proof (command_run CMD_ACK_AUTH (makeCommKey password s) resp2 "general"
                z3 z4 z5) as Hrun2.
  cbv zeta in Hrun2. rewrite Hp in Hrun2.
  change (sessionID z3) with s in Hrun2. fold hdr2 in Hrun2.
  destruct (Hrun2 Hs2 Hr2) as [_ Hc2]. rewrite Hc2.
  cbn [String.eqb Ascii.eqb Bool.eqb].
  fold zf. rewrite Hsess, Z.eqb_refl. cbn [negb].
  assert (Hok : (if negb (s =? 0) && (len resp2 >=? 6)
                 then (Ok resp2, zf) else (Ok resp2, zf)) = (Ok resp2, zf))
    by (destruct (negb (s =? 0) && (len resp2 >=? 6)); reflexivity).
  rewrite Hok. rewrite (parsePacket_long resp2 Hlen2). cbn [Command].
  destruct (Uint16 (slice 0 2 resp2) =? CMD_ACK_OK); reflexivity.
Qed.

Lemma Connect_authenticates_witness :
  exists zf,
    Connect 55 (inl lockedDevice) freshClient = (Done tt, zf, false)
    /\ sessionID zf = 42
    /\ option_map outgoing (conn zf)
       = Some [fst (createHeader CMD_CONNECT 0 65534 []);
               fst (createHeader CMD_ACK_AUTH 42 0 (makeCommKey 55 42))].
Proof.
  eexists. split.
  - apply (Connect_authenticates 55 lockedDevice freshClient
             (mkZKTeco "udp"
                (Some (mkConn [ReadOk unauthReply; ReadOk authOkReply]
                         [fst (createHeader CMD_CONNECT 0 65534 [])] None))
                0 65534 [] [])
             (mkZKTeco "udp"
                (Some (mkConn [ReadOk authOkReply]
                         [fst (createHeader CMD_CONNECT 0 65534 [])] None))
                0 65534 [] [])
             (mkZKTeco "udp"
                (Some (mkConn [ReadOk authOkReply]
                         [fst (createHeader CMD_CONNECT 0 65534 []);
                          fst (createHeader CMD_ACK_AUTH 42 0
                                 (makeCommKey 55 42))] None))
                42 0 unauthReply [])
             (mkZKTeco "udp"
                (Some (mkConn []
                         [fst (createHeader CMD_CONNECT 0 65534 []);
                          fst (createHeader CMD_ACK_AUTH 42 0
                                 (makeCommKey 55 42))] None))
                42 0 unauthReply [])
             unauthReply authOkReply).
    + reflexivity.
    + reflexivity.
    + vm_compute. discriminate.
    + reflexivity.
    + vm_compute. reflexivity.
    + reflexivity.
    + vm_compute. discriminate.
    + reflexivity.
  - split; reflexivity.
Defined.

Lemma connRead_stays : staysConnected connRead.
Proof.
  intros z Hc. read_cases z; cbn [fst snd conn set_conn];
    try (repeat split; congruence).
Qed.

Lemma connWrite_stays (toSend : list byte) : staysConnected (connWrite toSend).
Proof.
  intros z Hc. unfold connWrite.
  destruct (conn z) as [c|] eqn:Ec; [|congruence].
  destruct (writeErr c); cbn [fst snd conn set_conn];
    repeat split; congruence.
Qed.

Lemma sendData_stays (data : list byte) : staysConnected (sendData data).
Proof.
  intros z Hc. unfold sendData, bind, get.
  destruct (conn z) as [c|] eqn:Ec; [|congruence].
  apply connWrite_stays. congruence.
Qed.

Lemma recvTCPLoop_stays (fuel : nat) :
  forall z, (pending z < fuel)%nat -> conn z <> None ->
    fst (recvTCPLoop fuel z) <> Panic
    /\ fst (recvTCPLoop fuel z) <> Diverged
    /\ conn (snd (recvTCPLoop fuel z)) <> None.
Proof.
  induction fuel as [|fuel IH]; intros z H Hc; [lia|].
  rewrite recvTCPLoop_step.
  destruct (extractTCPPacket (tcpBuffer z)) as [[payload remainder] [|]].
  - cbn [fst snd]. repeat split; try discriminate. exact Hc.
  - read_cases z; cbn [fst snd conn set_conn];
      try (repeat split; congruence).
    apply IH.
    + unfold pending in *. rewrite Ec, Ei in H. cbn in *. lia.
    + cbn. discriminate.
Qed.

Lemma recvData_stays : staysConnected recvData.
Proof.
  intros z Hc. unfold recvData, bind, get.
  destruct (conn z) as [c|] eqn:Ec; [|congruence].
  destruct (IsTCP z).
  - apply recvTCPLoop_stays; [lia | congruence].
  - rewrite recvUDP_eq. apply connRead_stays. congruence.
Qed.

Lemma primed_conn (z : ZKTeco) : conn (primed z) = conn z.
Proof. unfold primed. destruct (len (lastData z) >=? 8); reflexivity. Qed.

Lemma command_stays (cmd : Z) (data : list byte) (cmdType : string) :
  staysConnected (command cmd data cmdType).
Proof.
  intros z Hc. rewrite command_unfold. cbv zeta.
  set (pkt := fst (createHeader cmd (sessionID (primed z))
                     (replyID (primed z)) data)).
  assert (Hp : conn (primed z) <> None) by (rewrite primed_conn; exact Hc).
  destruct (sendData_stays pkt (primed z) Hp) as (Hs1 & Hs2 & Hs3).
  destruct (sendData pkt (primed z)) as [[[]|e| |] z1]; cbn [fst snd] in *;
    try (repeat split; congruence).
  destruct (recvData_stays z1 Hs3) as (Hr1 & Hr2 & Hr3).
  destruct (recvData z1) as [[resp|e| |] z2]; cbn [fst snd] in *;
    try (repeat split; congruence).
  destruct (String.eqb cmdType "data");
    [cbn [fst snd conn set_lastData set_replyID];
     repeat split; try discriminate; exact Hr3|].
  destruct (negb _ && _);
    [destruct (negb _)|];
    cbn [fst snd conn set_lastData set_replyID];
    repeat split; try discriminate; exact Hr3.
Qed.

(** X24.  An exchange never runs into the nil connection and never hangs:
    on a client without a connection [command] returns the not-connected
    error before anything is sent, having at most taken over the replyID of
    the last response; on a client with a connection it comes back with a
    response or an error, the connection still in place. *)
Theorem command_comes_back (cmd : Z) (data : list byte) (cmdType : string)
    (z : ZKTeco) :
  (conn z = None ->
     command cmd data cmdType z = (Err ErrNotConnected, primed z))
  /\ fst (command cmd data cmdType z) <> Panic
  /\ fst (command cmd data cmdType z) <> Diverged
  /\ (conn (snd (command cmd data cmdType z)) = None <-> conn z = None).
Proof.
  assert (Hnone : conn z = None ->
            command cmd data cmdType z = (Err ErrNotConnected, primed z)).
  { intros Hc. rewrite command_unfold. cbv zeta.
    unfold sendData, bind, get, fail. rewrite primed_conn, Hc. reflexivity. }
  split; [exact Hnone|].
  destruct (conn z) as [c|] eqn:Ec.
  - destruct (command_stays cmd data cmdType z) as (H1 & H2 & H3);
      [congruence|].
    repeat split; try assumption; intros H; [contradiction | discriminate].
  - rewrite (Hnone eq_refl). cbn [fst snd]. rewrite primed_conn.
    repeat split; try discriminate; auto.
Qed.

Lemma command_comes_back_witness :
  command CMD_EXIT [] "general" freshClient
  = (Err ErrNotConnected, primed freshClient).
Proof.
  apply (proj1 (command_comes_back CMD_EXIT [] "general" freshClient)).
  reflexivity.
Defined.

(** X25.  [Disconnect] on a client with a connection always ends with the
    connection dropped and the session id 0, whatever became of the exit
    exchange: its error is discarded, and the only error reported is that
    of closing the connection.  The protocol is kept.  Without a
    connection it does nothing. *)
Theorem Disconnect_drops_connection (closeErr : option net_error)
    (z : ZKTeco) :
  (conn z = None -> Disconnect closeErr z = (Done tt, z))
  /\ (conn z <> None ->
        fst (Disconnect closeErr z)
        = match closeErr with
          | Some e => Failed (Returned (ErrNet e))
          | None => Done tt
          end
        /\ conn (snd (Disconnect closeErr z)) = None
        /\ sessionID (snd (Disconnect closeErr z)) = 0
        /\ protocol (snd (Disconnect closeErr z)) = protocol z).
Proof.
  unfold Disconnect. split.
  - intros ->. reflexivity.
  - intros Hc. destruct (conn z) as [c|] eqn:Ec; [|congruence].
    destruct (command_stays CMD_EXIT [] "general" z) as (H1 & H2 & _);
      [congruence|].
    destruct (command CMD_EXIT [] "general" z) as [[resp|e| |] z1] eqn:Eq;
      cbn [fst snd] in *; try congruence;
      destruct (command_identity _ _ _ _ _ _ Eq) as [Hp _];
      destruct closeErr; cbn [fst snd conn sessionID protocol
                                set_conn set_sessionID];
      repeat split; exact Hp.
Qed.

Lemma Disconnect_drops_connection_witness :
  conn quietClient <> None
  /\ fst (Disconnect None quietClient) = Done tt
  /\ conn (snd (Disconnect None quietClient)) = None
  /\ sessionID (snd (Disconnect None quietClient)) = 0
  /\ protocol (snd (Disconnect None quietClient)) = protocol quietClient.
Proof.
  assert (Hc : conn quietClient <> None) by (vm_compute; discriminate).
  split; [exact Hc|].
  exact (proj2 (Disconnect_drops_connection None quietClient) Hc).
Defined.


(** ** From the request to the records *)

Lemma commandData_bulk (cmd : Z) (data prepareResp : list byte)
    (z z0 : ZKTeco) :
  command cmd data "data" z = (Ok prepareResp, z0) ->
  8 <= len prepareResp ->
  Uint16 (slice 0 2 prepareResp) = CMD_PREPARE_DATA ->
  commandData cmd data z = recvLargeData prepareResp z0.
Proof.
  intros Hc Hlen Hcode. unfold commandData, bind. rewrite Hc.
  rewrite (parsePacket_long prepareResp Hlen). cbn [Command].
  rewrite Hcode. reflexivity.
Qed.

Lemma len_sub_header (h data : list byte) :
  length h = 8%nat -> len (h ++ data) - 8 = len data.
Proof. intros Hh. rewrite len_app. unfold len. lia. Qed.

(** X26.  [GetUsers], end to end.  When the device answers the user request
    with a bulk transfer whose chunks are an eight-byte sub-header followed
    by data, the users returned are those of the full 72-byte records of
    the data of all chunks put together: the eight bytes [GetUsers] skips
    are exactly the sub-header of the first chunk that [recvLargeData]
    keeps, and a record may span chunks. *)
Theorem GetUsers_end_to_end (prepareResp finalResp : list byte)
    (z z0 z1 z2 : ZKTeco) (parts : list (list byte * list byte)) :
  command CMD_USER_TEMP_RRQ [mk_byte FCT_USER] "data" z
  = (Ok prepareResp, z0) ->
  12 <= len prepareResp ->
  Uint16 (slice 0 2 prepareResp) = CMD_PREPARE_DATA ->
  parts <> [] ->
  (forall p, In p parts -> length (fst p) = 8%nat /\ snd p <> []) ->
  Uint32 (slice 8 12 prepareResp) = len (concat (map snd parts)) ->
  takeChunks (length parts) z0 = Some (map joinPart parts, z1) ->
  recvData z1 = (Ok finalResp, z2) ->
  let data := concat (map snd parts) in
  GetUsers z
  = (Done (flat_map (fun r => keep (parseUserRecord r))
             (recordsOf 72 (Z.to_nat (len data / 72)) data)),
     set_lastData finalResp z2).
Proof.
  intros Hc Hlen Hcode Hne Hall Htotal Htake Hack data.
  unfold GetUsers.
  rewrite (commandData_bulk _ _ _ _ _ Hc ltac:(lia) Hcode).
  rewrite (recvLargeData_parts _ _ _ _ _ _ Hlen Hne Hall Htotal Htake Hack).
  fold data.
  destruct parts as [|p ps]; [contradiction|]. cbn [hd].
  destruct (Hall p (or_introl eq_refl)) as [Hh Hd].
  assert (Hpos : 0 < len data).
  { subst data. cbn [map concat]. rewrite len_app.
    pose proof (len_nonneg (concat (map snd ps))).
    assert (0 < len (snd p)); [|lia].
    unfold len. destruct (snd p); [contradiction | cbn [length]; lia]. }
  pose proof (len_sub_header (fst p) data Hh) as Hl.
  destruct (usersOf_long (fst p ++ data) ltac:(lia)) as [Hu _].
  rewrite Hu, Hl. unfold slice_from.
  rewrite <- Hh, skipn_app, skipn_all, Nat.sub_diag. reflexivity.
Qed.

Lemma GetUsers_end_to_end_witness :
  exists zf,
    GetUsers usersClient
    = (Done (flat_map (fun r => keep (parseUserRecord r))
               (recordsOf 72 1 (repeat x01 72))), zf).
Proof.
  eexists.
  eapply (GetUsers_end_to_end
            (serialize CMD_PREPARE_DATA 0 42 0 (PutUint32 72)) bulkAck
            usersClient _ _ _ usersParts).
  - reflexivity.
  - vm_compute. discriminate.
  - reflexivity.
  - discriminate.
  - intros p [<-|[]]; split; (reflexivity || discriminate).
  - reflexivity.
  - reflexivity.
  - reflexivity.
Defined.

(** X27.  [GetAttendances], end to end.  Under the same conditions on the
    transfer, with more than two bytes of data, the attendance records
    returned are those of the full 40-byte records that follow the first
    two bytes of the data: besides the sub-header of the first chunk,
    [GetAttendances] drops the two bytes that come before the first
    record. *)
Theorem GetAttendances_end_to_end (prepareResp finalResp : list byte)
    (z z0 z1 z2 : ZKTeco) (parts : list (list byte * list byte)) :
  command CMD_ATT_LOG_RRQ [] "data" z = (Ok prepareResp, z0) ->
  12 <= len prepareResp ->
  Uint16 (slice 0 2 prepareResp) = CMD_PREPARE_DATA ->
  parts <> [] ->
  (forall p, In p parts -> length (fst p) = 8%nat /\ snd p <> []) ->
  Uint32 (slice 8 12 prepareResp) = len (concat (map snd parts)) ->
  takeChunks (length parts) z0 = Some (map joinPart parts, z1) ->
  recvData z1 = (Ok finalResp, z2) ->
  let data := concat (map snd parts) in
  2 < len data ->
  GetAttendances z
  = (Done (flat_map (fun r => keep (parseAttendanceRecord r))
             (recordsOf 40 (Z.to_nat ((len data - 2) / 40))
                (slice_from 2 data))),
     set_lastData finalResp z2).
Proof.
  intros Hc Hlen Hcode Hne Hall Htotal Htake Hack data Hdata.
  unfold GetAttendances.
  rewrite (commandData_bulk _ _ _ _ _ Hc ltac:(lia) Hcode).
  rewrite (recvLargeData_parts _ _ _ _ _ _ Hlen Hne Hall Htotal Htake Hack).
  fold data.
  destruct parts as [|p ps]; [contradiction|]. cbn [hd].
  destruct (Hall p (or_introl eq_refl)) as [Hh Hd].
  pose proof (len_sub_header (fst p) data Hh) as Hl.
  rewrite (attendancesOf_long (fst p ++ data)) by lia.
  replace (len (fst p ++ data) - 10) with (len data - 2) by lia.
  unfold slice_from.
  replace 10%nat with (2 + length (fst p))%nat by lia.
  rewrite <- skipn_skipn.
  rewrite skipn_app, skipn_all, Nat.sub_diag. reflexivity.
Qed.

Lemma GetAttendances_end_to_end_witness :
  exists zf,
    GetAttendances attendanceClient
    = (Done (flat_map (fun r => keep (parseAttendanceRecord r))
               (recordsOf 40 1 sampleRecord)), zf).
Proof.
  eexists.
  eapply (GetAttendances_end_to_end
            (serialize CMD_PREPARE_DATA 0 42 0 (PutUint32 42)) bulkAck
            attendanceClient _ _ _ attendanceParts).
  - reflexivity.
  - vm_compute. discriminate.
  - reflexivity.
  - discriminate.
  - intros p [<-|[<-|[]]]; split; (reflexivity || discriminate).
  - reflexivity.
  - reflexivity.
  - reflexivity.
  - vm_compute. reflexivity.
Defined.
